(** * Isotope pattern storage: a shallow embedding of [app/isotope_storage.py]

    The development follows the Python module top to bottom: the exceptions
    and the store the methods act on, the file system and the directory
    cache, [IsotopePatternStorage] with its loaders, the FDR subsample and
    the pattern generator.  Pandas tables are lists of rows, Python sets and
    dicts are [gset] and [gmap], Python floats are binary64 floats. *)

From Stdlib Require Import ZArith Floats Ascii.
From stdpp Require Import base gmap sets list strings pretty.

Set Warnings "-inexact-float,-clear-no-such-hyp".
Local Open Scope Z_scope.

(** ** Exceptions and results *)

Inductive exn : Set :=
| KeyError
| ValueError
| IndexError
| ZeroDivisionError
| OverflowError
| AssertionError
| OSError.

Inductive result (A : Type) : Type :=
| Ok (a : A)
| Raise (e : exn).
Arguments Ok {A} a.
Arguments Raise {A} e.

Definition is_ok {A} (r : result A) : bool :=
  match r with Ok _ => true | Raise _ => false end.

(** ** Rows of the stored tables

    A partition file has the columns [mf], [mzs], [intensities], [adduct]. *)

Record pattern_row : Type := PatternRow {
  mf : string;
  mzs : list float;
  intensities : list float;
  adduct : string
}.

Abbreviation table := (list pattern_row).

(** ** The file system

    A path is the list of its components; a node is a parquet file with its
    rows or a directory.  Labels put into a path are taken not to contain
    the path separator. *)

Abbreviation path := (list string).

Inductive node : Type :=
| NFile (rows : table)
| NDir.

Abbreviation filesystem := (gmap path node).

Definition parent (p : path) : path := removelast p.

Definition path_exists (fs : filesystem) (p : path) : bool :=
  bool_decide (is_Some (fs !! p)).

Definition is_dir (fs : filesystem) (p : path) : bool :=
  match fs !! p with Some NDir => true | _ => false end.

(** [Path.iterdir]: the children of a directory, in the order of the map. *)
Definition iterdir (fs : filesystem) (p : path) : result (list path) :=
  if is_dir fs p
  then Ok (filter (λ q, q ≠ [] ∧ parent q = p) (map fst (map_to_list fs)))
  else Raise OSError.

(** [Path.mkdir(exist_ok=True, parents=True)], walking down from [pre].
    Directories made before a failure stay. *)
Fixpoint mkdir_from (pre : path) (rest : list string) (fs : filesystem)
  : result unit * filesystem :=
  match rest with
  | [] => (Ok tt, fs)
  | c :: rest' =>
      let p := pre ++ [c] in
      match fs !! p with
      | Some (NFile _) => (Raise OSError, fs)
      | Some NDir => mkdir_from p rest' fs
      | None => mkdir_from p rest' (<[p := NDir]> fs)
      end
  end.

Definition mkdir (p : path) (fs : filesystem) : result unit * filesystem :=
  mkdir_from [] p fs.

(** [pyarrow.parquet.read_table(fn).to_pandas()] *)
Definition read_table (fs : filesystem) (p : path) : result table :=
  match fs !! p with
  | Some (NFile rows) => Ok rows
  | _ => Raise OSError
  end.

(** [pyarrow.parquet.write_table(table, fn)] *)
Definition write_table (rows : table) (p : path) (fs : filesystem)
  : result unit * filesystem :=
  if is_dir fs p then (Raise OSError, fs)
  else if is_dir fs (parent p) then (Ok tt, <[p := NFile rows]> fs)
  else (Raise OSError, fs).

(** ** External collaborators

    The physics engine [cpyMSpec], numpy's global random generator and the
    values the module imports are interfaces.  Of the engine's calls only
    [isotopePattern] is made under a [try]; the others are taken to
    return. *)

Class Engine : Type := {
  pattern : Type;
  instrument_model : Type;
  (** [ms.isotopePattern]; [None] when it raises *)
  isotopePattern : string → option pattern;
  masses : pattern → list float;
  pattern_intensities : pattern → list float;
  InstrumentModel : string → float → instrument_model;
  addCharge : Z → pattern → pattern;
  centroids : instrument_model → pattern → pattern;
  trimmed : nat → pattern → pattern;
  sortByMass : pattern → pattern
}.

Class Rng : Type := {
  rng_state : Type;
  (** the state [np.random.seed(s)] installs *)
  init_by_seed : Z → rng_state;
  (** one draw of [random_sample]: the numerator of a double [m / 2^53] *)
  random_sample : rng_state → N * rng_state
}.

Class Config : Type := {
  (** [app.config.ISOTOPE_CACHE_SIZE]; [None] is an unbounded cache *)
  ISOTOPE_CACHE_SIZE : option nat;
  (** the built-in [int] on strings; [None] when it raises [ValueError] *)
  py_int : string → option Z
}.

Definition ISOTOPIC_PEAK_N : nat := 4.
Definition SIGMA_TO_FWHM : float := 2.3548200450309493%float.

Record InstrumentSettings : Type := { pts_per_mz : Z }.

(** The default of the parameter [decoy_adducts]. *)
Definition DECOY_ADDUCTS : list string :=
  ["+He"; "+Li"; "+Be"; "+B"; "+C"; "+N"; "+O"; "+F"; "+Ne"; "+Mg"; "+Al";
   "+Si"; "+P"; "+S"; "+Cl"; "+Ar"; "+Ca"; "+Sc"; "+Ti"; "+V"; "+Cr"; "+Mn";
   "+Fe"; "+Co"; "+Ni"; "+Cu"; "+Zn"; "+Ga"; "+Ge"; "+As"; "+Se"; "+Br";
   "+Kr"; "+Rb"; "+Sr"; "+Y"; "+Zr"; "+Nb"; "+Mo"; "+Ru"; "+Rh"; "+Pd";
   "+Ag"; "+Cd"; "+In"; "+Sn"; "+Sb"; "+Te"; "+I"; "+Xe"; "+Cs"; "+Ba";
   "+La"; "+Ce"; "+Pr"; "+Nd"; "+Sm"; "+Eu"; "+Gd"; "+Tb"; "+Dy"; "+Ho";
   "+Ir"; "+Th"; "+Pt"; "+Os"; "+Yb"; "+Lu"; "+Bi"; "+Pb"; "+Re"; "+Tl";
   "+Tm"; "+U"; "+W"; "+Au"; "+Er"; "+Hf"; "+Hg"; "+Ta"].

(** [molecularFormulaSets] on the rows [(sf, db_id)] its query gives:
    the dictionary {db_id => set of molecular formulas}. *)
Definition molecularFormulaSets (q : list (string * Z))
  : gmap Z (gset string) :=
  foldl (λ db_id_to_mfs row,
           <[row.2 := default ∅ (db_id_to_mfs !! row.2) ∪ {[row.1]}]>
             db_id_to_mfs)
        ∅ q.


(** Calls into the physics engine, in the order they are made. *)
Inductive engine_call : Type :=
| CallIsotopePattern (formula : string)
| CallInstrumentModel (kind : string) (resolving_power : float).

Section Model.
Context {engine : Engine} {rng : Rng} {config : Config}.

(** ** The store the methods act on *)

Record world : Type := World {
  fs : filesystem;
  (** entries of [functools.lru_cache] on [_load_dir], most recent first *)
  lru : list (path * table);
  (** the global state of [np.random] *)
  np_random : rng_state;
  engine_log : list engine_call
}.

Definition py (A : Type) : Type := world → result A * world.

Definition ret {A} (a : A) : py A := λ w, (Ok a, w).
Definition raise {A} (e : exn) : py A := λ w, (Raise e, w).
Definition bind {A B} (m : py A) (f : A → py B) : py B :=
  λ w, match m w with
       | (Ok a, w') => f a w'
       | (Raise e, w') => (Raise e, w')
       end.
Definition lift {A} (r : result A) : py A := λ w, (r, w).
Definition get_fs : py filesystem := λ w, (Ok (fs w), w).
Definition on_fs {A} (f : filesystem → result A * filesystem) : py A :=
  λ w, let '(r, fs') := f (fs w) in
       (r, World fs' (lru w) (np_random w) (engine_log w)).
Definition log_call (c : engine_call) : py unit :=
  λ w, (Ok tt, World (fs w) (lru w) (np_random w) (engine_log w ++ [c])).

Notation "x <- m ;; k" := (bind m (λ x, k))
  (at level 100, m at next level, right associativity, only parsing).
Notation "m ;; k" := (bind m (λ _, k))
  (at level 100, right associativity, only parsing).

(** ** [IsotopePatternStorage] *)

Record IsotopePatternStorage : Type := {
  _dir : path;
  (** [_mf_cache]: each data frame kept as its [mf] column *)
  _mf_cache : gmap Z (list string)
}.

(** The loop of [__init__] over the dictionary, one database at a time. *)
Definition add_database (acc : gset string * gmap Z (list string))
    (entry : Z * gset string) : gset string * gmap Z (list string) :=
  (acc.1 ∪ entry.2, <[entry.1 := elements entry.2]> acc.2).

Definition __init__ (mol_formulas : gmap Z (gset string)) (directory : path)
  : py IsotopePatternStorage :=
  on_fs (mkdir directory) ;;
  let '(all_mfs, mf_cache) :=
    foldl add_database (∅, ∅) (map_to_list mol_formulas) in
  ret {| _dir := directory; _mf_cache := <[-1 := elements all_mfs]> mf_cache |}.

(** *** Worlds that differ in the generator only *)

Definition set_np_random (g : rng_state) (w : world) : world :=
  World (fs w) (lru w) g (engine_log w).


Section Methods.
Variable self : IsotopePatternStorage.

Definition _dir_path (instrument_settings : InstrumentSettings) (charge : Z)
  : path :=
  _dir self ++ ["pts_" +:+ pretty (pts_per_mz instrument_settings);
                "charge_" +:+ pretty charge].

Definition _path (instrument_settings : InstrumentSettings)
    (adduct : string) (charge : Z) : path :=
  _dir_path instrument_settings charge ++ ["adduct_" +:+ adduct +:+ ".parquet"].

Definition _load_single_file (filename : path) : py table :=
  fs <- get_fs ;; lift (read_table fs filename).

(** *** The directory cache *)

Fixpoint cache_find (d : path) (c : list (path * table)) : option table :=
  match c with
  | [] => None
  | (d', df) :: c' => if decide (d' = d) then Some df else cache_find d c'
  end.

Definition cache_remove (d : path) (c : list (path * table))
  : list (path * table) :=
  filter (λ e, e.1 ≠ d) c.

Definition cache_bound (c : list (path * table)) : list (path * table) :=
  match ISOTOPE_CACHE_SIZE with
  | Some n => take n c
  | None => c
  end.

Definition set_lru (c : list (path * table)) (w : world) : world :=
  World (fs w) c (np_random w) (engine_log w).

(** [pd.concat]: no objects to concatenate is a [ValueError]. *)
Definition pd_concat (dfs : list table) : result table :=
  match dfs with
  | [] => Raise ValueError
  | _ => Ok (concat dfs)
  end.

Fixpoint read_tables (fs : filesystem) (paths : list path)
  : result (list table) :=
  match paths with
  | [] => Ok []
  | p :: paths' =>
      match read_table fs p with
      | Raise e => Raise e
      | Ok df =>
          match read_tables fs paths' with
          | Raise e => Raise e
          | Ok dfs => Ok (df :: dfs)
          end
      end
  end.

(** The body of [_load_dir], run on a miss. *)
Definition read_dir (fs : filesystem) (directory : path) : result table :=
  match iterdir fs directory with
  | Raise e => Raise e
  | Ok paths =>
      match read_tables fs paths with
      | Raise e => Raise e
      | Ok dfs => pd_concat dfs
      end
  end.

(** [_load_dir] under [functools.lru_cache]: a hit moves the entry to the
    front, a miss that returns is stored and the oldest entry leaves when
    the cache is full, a miss that raises stores nothing. *)
Definition _load_dir (directory : path) : py table :=
  λ w, match cache_find directory (lru w) with
       | Some df =>
           (Ok df, set_lru ((directory, df) :: cache_remove directory (lru w)) w)
       | None =>
           match read_dir (fs w) directory with
           | Ok df => (Ok df, set_lru (cache_bound ((directory, df) :: lru w)) w)
           | Raise e => (Raise e, w)
           end
       end.

Definition _load (filename : path) : py table :=
  fs <- get_fs ;;
  if is_dir fs filename then _load_dir filename
  else _load_single_file filename.

(** [db_id=None] means all databases. *)
Definition _molecular_formulas (db_id : option Z) : py (list string) :=
  let db_id := default (-1) db_id in
  match _mf_cache self !! db_id with
  | Some df => ret df
  | None => raise KeyError
  end.

(** *** The configuration index *)

Definition name (p : path) : string := List.last p "".

(** [str.split(sep)] for a one-character separator. *)
Fixpoint split_on (sep : Ascii.ascii) (s : string) : list string :=
  match s with
  | EmptyString => [EmptyString]
  | String c s' =>
      if decide (c = sep) then EmptyString :: split_on sep s'
      else match split_on sep s' with
           | h :: t => String c h :: t
           | [] => [String c EmptyString]
           end
  end.

Definition item {A} (l : list A) (i : nat) : result A :=
  match l !! i with
  | Some x => Ok x
  | None => Raise IndexError
  end.

Definition int (s : string) : result Z :=
  match py_int s with
  | Some z => Ok z
  | None => Raise ValueError
  end.

(** A [for] loop over a list that threads the loop's variables. *)
Fixpoint for_each {A S} (l : list A) (body : A → S → py S) (s : S) : py S :=
  match l with
  | [] => ret s
  | x :: l' => s' <- body x s ;; for_each l' body s'
  end.

Record configuration : Type := Configuration {
  cfg_pts_per_mz : Z;
  cfg_charge : Z;
  cfg_adduct : string
}.

(** A data frame of configurations: the columns it has and its records. *)
Record frame : Type := Frame {
  columns : list string;
  records : list configuration
}.

(** [pd.DataFrame.from_records]: the columns are the keys of the records, so
    no record gives no column. *)
Definition from_records (result : list configuration) : frame :=
  match result with
  | [] => Frame [] []
  | _ => Frame ["adduct"; "charge"; "pts_per_mz"] result
  end.

(** [df[[c1, ..., cn]]] and [df[c]]: a missing column is a [KeyError]. *)
Definition getitem_list (cols : list string) (df : frame) : result frame :=
  if bool_decide (Forall (λ c, c ∈ columns df) cols)
  then Ok (Frame cols (records df))
  else Raise KeyError.

Definition getitem {A} (col : string) (proj : configuration → A) (df : frame)
  : result (list A) :=
  if bool_decide (col ∈ columns df)
  then Ok (proj <$> records df)
  else Raise KeyError.

(** [Series.unique]: the values in the order of their first appearance. *)
Fixpoint unique {A} `{EqDecision A} (l : list A) : list A :=
  match l with
  | [] => []
  | x :: l' => x :: filter (λ y, y ≠ x) (unique l')
  end.

Definition _configurations : py frame :=
  fs <- get_fs ;;
  instr_dirs <- lift (iterdir fs (_dir self)) ;;
  result <- for_each instr_dirs (λ instr_dir result,
    field <- lift (item (split_on "_"%char (name instr_dir)) 1) ;;
    pts_per_mz <- lift (int field) ;;
    charge_dirs <- lift (iterdir fs instr_dir) ;;
    for_each charge_dirs (λ charge_dir result,
      field <- lift (item (split_on "_"%char (name charge_dir)) 1) ;;
      charge <- lift (int field) ;;
      adduct_dirs <- lift (iterdir fs charge_dir) ;;
      for_each adduct_dirs (λ adduct_dir result,
        field <- lift (item (split_on "_"%char (name adduct_dir)) 1) ;;
        adduct <- lift (item (split_on "."%char field) 0) ;;
        ret (result ++ [Configuration pts_per_mz charge adduct]))
        result)
      result) [] ;;
  ret (from_records result).

(** Set of all (adduct, charge) combinations added so far *)
Definition adduct_charge_pairs : py (gset (string * Z)) :=
  df <- _configurations ;;
  df <- lift (getitem_list ["adduct"; "charge"] df) ;;
  ret (list_to_set ((λ x, (cfg_adduct x, cfg_charge x)) <$> records df)).

(** Set of all instrument settings added so far, each by its [pts_per_mz] *)
Definition instrument_settings : py (gset Z) :=
  df <- _configurations ;;
  col <- lift (getitem "pts_per_mz" cfg_pts_per_mz df) ;;
  ret (list_to_set (unique col)).

(** *** Queries *)

(** [pd.merge(df, right)] on the one column they share, [right] having only
    that column: an inner join whose result is grouped by the key, the keys
    in the order [df] first shows them, the rows of a key in the order of
    [df], each once per row of [right] with that key. *)
Definition pd_merge {K} `{EqDecision K} (key : pattern_row → K)
    (df : table) (right : list K) : table :=
  flat_map (λ k,
    flat_map (λ r, replicate (length (filter (λ k', k' = k) right)) r)
             (filter (λ r, key r = k) df))
    (unique (key <$> df)).

Definition load_patterns (instrument_settings : InstrumentSettings)
    (charge : Z) (db_id : option Z) (adducts : list string) : py table :=
  let dir_path := _dir_path instrument_settings charge in
  df <- _load dir_path ;;
  let df := match adducts with
            | [] => df
            | _ => pd_merge adduct df adducts
            end in
  match db_id with
  | None | Some 0 => ret df
  | Some _ =>
      mol_formulas <- _molecular_formulas db_id ;;
      ret (pd_merge mf df mol_formulas)
  end.

(** *** The FDR subsample *)

(** A row of the table [load_fdr_subsample] builds: the stored row, the
    [is_target] column and the boolean columns named after target adducts
    (these labels are taken to differ from the five column names above). *)
Record fdr_row : Type := FdrRow {
  base : pattern_row;
  is_target : bool;
  selected : gmap string bool
}.

(** [df[name] = values] *)
Definition set_column (name : string) (values : list bool)
    (df : list fdr_row) : list fdr_row :=
  zip_with (λ r b, FdrRow (base r) (is_target r) (<[name := b]> (selected r)))
           df values.

(** [np.random.seed]: the seed must be between 0 and 2**32 - 1. *)
Definition np_random_seed (seed : Z) : py unit :=
  λ w, if bool_decide (0 ≤ seed < 2 ^ 32)
       then (Ok tt, World (fs w) (lru w) (init_by_seed seed) (engine_log w))
       else (Raise ValueError, w).

(** [np.random.rand(n)] on a generator state: [n] draws in a row. *)
Fixpoint rand (n : nat) (g : rng_state) : list N * rng_state :=
  match n with
  | O => ([], g)
  | S n' =>
      let '(x, g') := random_sample g in
      let '(xs, g'') := rand n' g' in
      (x :: xs, g'')
  end.

(** [ndarray.argsort]: the positions in increasing order of the values,
    equal values keeping their order. *)
Fixpoint insert_by (v : N * nat) (l : list (N * nat)) : list (N * nat) :=
  match l with
  | [] => [v]
  | w :: l' => if (v.1 <=? w.1)%N then v :: l else w :: insert_by v l'
  end.

Definition argsort (xs : list N) : list nat :=
  snd <$> foldr insert_by [] (zip xs (seq 0 (length xs))).

(** [selection[start : start + n][sub_selection] = True]; the slice has all
    its [n] places since [(i + 1) * n <= len(decoy_df)] in every round. *)
Definition mark_group (start : nat) (sub_selection : list nat)
    (selection : list bool) : list bool :=
  foldl (λ sel j, <[(start + j)%nat := true]> sel) selection sub_selection.

Fixpoint select_groups (n_decoy_adducts decoys_per_target : nat)
    (groups : list nat) (selection : list bool) (g : rng_state)
  : list bool * rng_state :=
  match groups with
  | [] => (selection, g)
  | i :: groups' =>
      let '(draws, g') := rand n_decoy_adducts g in
      let sub_selection := take decoys_per_target (argsort draws) in
      select_groups n_decoy_adducts decoys_per_target groups'
        (mark_group (i * n_decoy_adducts) sub_selection selection) g'
  end.

Definition _select_decoys (n_rows n_mf n_decoy_adducts decoys_per_target : nat)
  : py (list bool) :=
  λ w, let '(selection, g) :=
         select_groups n_decoy_adducts decoys_per_target (seq 0 n_mf)
                       (replicate n_rows false) (np_random w) in
       (Ok selection, World (fs w) (lru w) g (engine_log w)).

(** [df.groupby('is_target')]: the groups that have rows, False < True. *)
Definition groupby_is_target (df : list fdr_row) : list (list fdr_row) :=
  filter (λ g, g ≠ [])
    [filter (λ r, is_target r = false) df; filter (λ r, is_target r = true) df].

(** [decoy_df[target_adducts].sum(axis=1)] for one row *)
Definition selection_count (target_adducts : list string) (r : fdr_row) : nat :=
  sum_list ((λ t, match selected r !! t with
                  | Some true => 1
                  | _ => 0
                  end)%nat <$> target_adducts).

(** [if random_seed: np.random.seed(random_seed)] *)
Definition seed_if_given (random_seed : option Z) : py unit :=
  match random_seed with
  | None | Some 0 => ret tt
  | Some seed => np_random_seed seed
  end.

(** The body of [load_fdr_subsample] from the table it has loaded on;
    [decoys_per_target] is a count. *)
Definition subsample (df : table) (target_adducts : list string)
    (decoys_per_target : nat) : py (list fdr_row) :=
  let df := (λ r, FdrRow r (bool_decide (adduct r ∈ target_adducts)) ∅) <$> df in
  match groupby_is_target df with
  | [decoy_df; target_df] =>
      let n_decoy_adducts := length (unique (adduct ∘ base <$> decoy_df)) in
      let n_mf := (length decoy_df / n_decoy_adducts)%nat in
      if bool_decide (decoys_per_target ≤ n_decoy_adducts)%nat then
        dfs <- for_each target_adducts (λ adduct dfs,
          selection <- _select_decoys (length decoy_df) n_mf n_decoy_adducts
                                      decoys_per_target ;;
          ret (set_column adduct (replicate (length dfs.1) false) dfs.1,
               set_column adduct selection dfs.2))
          (target_df, decoy_df) ;;
        let '(target_df, decoy_df) := dfs in
        let decoy_df :=
          filter (λ r, (0 < selection_count target_adducts r)%nat) decoy_df in
        ret (target_df ++ decoy_df)
      else raise AssertionError
  | _ => raise ValueError
  end.

Definition load_fdr_subsample (instrument_settings : InstrumentSettings)
    (charge : Z) (db_id : option Z) (target_adducts decoy_adducts : list string)
    (decoys_per_target : nat) (random_seed : option Z)
  : py (list fdr_row) :=
  seed_if_given random_seed ;;
  df <- load_patterns instrument_settings charge db_id
          (target_adducts ++ decoy_adducts) ;;
  subsample df target_adducts decoys_per_target.

(** *** Vocabulary of the statements about the subsample *)

(** The rows [i * n, (i + 1) * n) of a column or a table. *)
Definition block {A} (n i : nat) (l : list A) : list A :=
  take n (drop (i * n) l).

Definition count_true (l : list bool) : nat :=
  length (filter (λ b, b = true) l).

(** The column named [t], row by row; [None] where a row lacks it. *)
Definition column (t : string) (df : list fdr_row) : list (option bool) :=
  (λ r, selected r !! t) <$> df.

(** The rows of a loaded table whose adduct is a target adduct, and the
    others. *)
Definition target_rows (target_adducts : list string) (df : table) : table :=
  filter (λ r, adduct r ∈ target_adducts) df.

Definition decoy_rows (target_adducts : list string) (df : table) : table :=
  filter (λ r, adduct r ∉ target_adducts) df.

(** The decoy rows come in groups, one per formula of [formulas], the rows
    of a group next to each other, each group with one row for every decoy
    adduct the table has. *)
Definition grouped_by_formula (decoys : table) (formulas : list string)
    (groups : list table) : Prop :=
  decoys = concat groups ∧
  NoDup formulas ∧
  Forall2 (λ f g, Forall (λ r, mf r = f) g ∧
                  length g = length (unique (adduct <$> decoys)) ∧
                  NoDup (adduct <$> g))
          formulas groups.

(** A seed [np.random.seed] accepts; no seed is fine too. *)
Definition seed_in_range (random_seed : option Z) : Prop :=
  match random_seed with
  | Some seed => 0 ≤ seed < 2 ^ 32
  | None => True
  end.

(** *** The generator *)

(** [float(n)] of an integer: the nearest double, ties to even, and an
    [OverflowError] beyond the range of doubles. *)
Definition float_of_int (n : Z) : result float :=
  let x := SF2Prim (binary_normalize prec emax n 0 false) in
  if PrimFloat.is_infinity x then Raise OverflowError else Ok x.

(** [x / y] on floats *)
Definition truediv (x y : float) : result float :=
  if PrimFloat.eqb y 0%float then Raise ZeroDivisionError else Ok (x / y)%float.

(** One round of the loop of [generate_patterns] over the new formulas; the
    rows stand for [valid_mfs], [masses] and [intensities]. *)
Definition generate_one (instrument_settings : InstrumentSettings)
    (adduct : string) (charge : Z) (mf : string) (rows : table) : py table :=
  log_call (CallIsotopePattern (mf +:+ adduct)) ;;
  match isotopePattern (mf +:+ adduct) with
  | None => ret rows
  | Some p =>
      pts <- lift (float_of_int (pts_per_mz instrument_settings)) ;;
      sigma <- lift (truediv 5.0%float pts) ;;
      let fwhm := (sigma * SIGMA_TO_FWHM)%float in
      m0 <- lift (item (masses p) 0) ;;
      resolving_power <- lift (truediv m0 fwhm) ;;
      log_call (CallInstrumentModel "tof" resolving_power) ;;
      let instrument_model := InstrumentModel "tof" resolving_power in
      let p := addCharge charge p in
      let p := trimmed ISOTOPIC_PEAK_N (centroids instrument_model p) in
      let p := sortByMass p in
      ret (rows ++ [PatternRow mf (masses p) (pattern_intensities p) adduct])
  end.

(** Fine-grained function for generating/updating a single file.
    [list(self._molecular_formulas(db_id) - mf_finished)] is read on the
    [mf] column of the frame: the formulas of the selected database that
    are not in [mf_finished], in the order the frame has them. *)
Definition generate_patterns (instrument_settings : InstrumentSettings)
    (adduct : string) (charge : Z) (db_id : option Z) : py unit :=
  let dump_path := _path instrument_settings adduct charge in
  fs <- get_fs ;;
  existing_df <-
    (if path_exists fs dump_path
     then (df <- _load dump_path ;; ret (Some df))
     else (on_fs (mkdir (parent dump_path)) ;; ret None)) ;;
  let mf_finished : gset string :=
    match existing_df with
    | Some df => list_to_set (mf <$> df)
    | None => ∅
    end in
  mol_formulas <- _molecular_formulas db_id ;;
  let new_mol_formulas := filter (λ x, x ∉ mf_finished) mol_formulas in
  match new_mol_formulas with
  | [] => ret tt
  | _ =>
      df <- for_each new_mol_formulas
              (generate_one instrument_settings adduct charge) [] ;;
      let df := match existing_df with
                | Some ((_ :: _) as existing) => existing ++ df
                | _ => df
                end in
      on_fs (write_table df dump_path)
  end.

(** *** Batches *)

(** A call of [generate_patterns] handed to the process pool. *)
Record task : Type := Task {
  task_instr : InstrumentSettings;
  task_adduct : string;
  task_charge : Z;
  task_db_id : option Z
}.

(** [xs or default]: [None] and the empty list give the default. *)
Definition or_else {A} (xs : option (list A)) (dflt : py (list A))
  : py (list A) :=
  match xs with
  | Some ((_ :: _) as xs) => ret xs
  | _ => dflt
  end.

Definition all_instrument_settings : py (list InstrumentSettings) :=
  s <- instrument_settings ;;
  ret ((λ x, {| pts_per_mz := x |}) <$> elements s).

Definition all_adduct_charge_pairs : py (list (string * Z)) :=
  s <- adduct_charge_pairs ;; ret (elements s).

(** [itertools.product] of three lists, the last one running fastest. *)
Definition product {A B C} (xs : list A) (ys : list B) (zs : list C)
  : list (A * B * C) :=
  x ← xs; y ← ys; z ← zs; [(x, y, z)].

(** Generate isotope patterns for cartesian product of configurations.
    The result is the list of the calls of [generate_patterns] the method
    submits to the pool, in the order it submits them; the workers run in
    processes of their own and are not part of the model, and [n_processes]
    only sizes the pool. *)
Definition batch_generate (database_ids : option (list (option Z)))
    (instrument_settings_list : option (list InstrumentSettings))
    (adduct_charge_pairs : option (list (string * Z))) : py (list task) :=
  database_ids <- or_else database_ids (ret [None]) ;;
  instrument_settings_list <-
    or_else instrument_settings_list all_instrument_settings ;;
  adduct_charge_pairs <- or_else adduct_charge_pairs all_adduct_charge_pairs ;;
  let param_tuples :=
    product database_ids instrument_settings_list adduct_charge_pairs in
  ret ((λ params, Task params.1.2 params.2.1 params.2.2 params.1.1)
         <$> param_tuples).


(** *** Vocabulary of the statements about the generator *)

Definition add_log (calls : list engine_call) (w : world) : world :=
  World (fs w) (lru w) (np_random w) (engine_log w ++ calls).

(** The resolving power one round of the loop computes for a pattern, with
    the exceptions of the divisions, the conversion and the indexing. *)
Definition resolving_power_of (instrument_settings : InstrumentSettings)
    (p : pattern) : result float :=
  match float_of_int (pts_per_mz instrument_settings) with
  | Raise e => Raise e
  | Ok pts =>
      match truediv 5.0%float pts with
      | Raise e => Raise e
      | Ok sigma =>
          match item (masses p) 0 with
          | Raise e => Raise e
          | Ok m0 => truediv m0 (sigma * SIGMA_TO_FWHM)%float
          end
      end
  end.

(** The row one round of the loop stores for a pattern. *)
Definition row_of (adduct : string) (charge : Z) (mf : string) (p : pattern)
    (resolving_power : float) : pattern_row :=
  let p := sortByMass
             (trimmed ISOTOPIC_PEAK_N
                (centroids (InstrumentModel "tof" resolving_power)
                   (addCharge charge p))) in
  PatternRow mf (masses p) (pattern_intensities p) adduct.

(** The resolving power in the words of the specification:
    [sigma = 5.0 / pointsPerMz], [fwhm = sigma * 2.3548200450309493],
    [resolvingPower = firstIsotopePeakMass / fwhm]. *)
Definition spec_resolving_power (points_per_mz first_peak_mass : float)
  : float :=
  let sigma := (5.0 / points_per_mz)%float in
  let fwhm := (sigma * 2.3548200450309493)%float in
  (first_peak_mass / fwhm)%float.

(** What the log may hold after a run of the generator for the adduct [ad]:
    calls of [isotopePattern], and instrument models of kind [tof] whose
    resolving power is the one of the specification for the pattern of a
    formula with that adduct. *)
Definition call_as_specified (instrument_settings : InstrumentSettings)
    (ad : string) (c : engine_call) : Prop :=
  match c with
  | CallIsotopePattern _ => True
  | CallInstrumentModel kind resolving_power =>
      kind = "tof" ∧
      ∃ x p pts m0,
        isotopePattern (x +:+ ad) = Some p ∧
        float_of_int (pts_per_mz instrument_settings) = Ok pts ∧
        masses p !! 0%nat = Some m0 ∧
        resolving_power = spec_resolving_power pts m0
  end.

(** A stored row as specified: the pattern of its formula with the adduct,
    charged, centroided under the instrument model of the specification,
    trimmed and sorted. *)
Definition row_as_specified (instrument_settings : InstrumentSettings)
    (ad : string) (charge : Z) (row : pattern_row) : Prop :=
  ∃ p pts m0,
    isotopePattern (mf row +:+ ad) = Some p ∧
    float_of_int (pts_per_mz instrument_settings) = Ok pts ∧
    masses p !! 0%nat = Some m0 ∧
    row = row_of ad charge (mf row) p (spec_resolving_power pts m0).

(** The arguments of the calls of [isotopePattern] in a log. *)
Definition isotope_calls (calls : list engine_call) : list string :=
  omap (λ c, match c with
             | CallIsotopePattern s => Some s
             | CallInstrumentModel _ _ => None
             end) calls.

Definition set_fs (fs' : filesystem) (w : world) : world :=
  World fs' (lru w) (np_random w) (engine_log w).

(** [mf_finished] and the table written, from the table read if any. *)
Definition finished (existing_df : option table) : gset string :=
  match existing_df with
  | Some df => list_to_set (mf <$> df)
  | None => ∅
  end.

Definition merged (existing_df : option table) (df : table) : table :=
  match existing_df with
  | Some ((_ :: _) as existing) => existing ++ df
  | _ => df
  end.

(** The first stage of [generate_patterns]: the table of the partition
    file if the path exists, and the parent directory made if not. *)
Definition read_existing (dump_path : path) : py (option table) :=
  λ w, if path_exists (fs w) dump_path
       then match _load dump_path w with
            | (Ok df, w0) => (Ok (Some df), w0)
            | (Raise e, w0) => (Raise e, w0)
            end
       else match mkdir (parent dump_path) (fs w) with
            | (Ok _, fs') => (Ok None, set_fs fs' w)
            | (Raise e, fs') => (Raise e, set_fs fs' w)
            end.

(** *** Vocabulary of the statements about the cache and the batches *)

(** A cache as [functools.lru_cache] keeps it: no directory twice, and no
    more directories than [ISOTOPE_CACHE_SIZE] allows. *)
Definition cache_ok (c : list (path * table)) : Prop :=
  NoDup c.*1 ∧
  match ISOTOPE_CACHE_SIZE with
  | Some n => (length c ≤ n)%nat
  | None => True
  end.

#[global] Instance InstrumentSettings_eq_dec : EqDecision InstrumentSettings.
Proof. solve_decision. Defined.

#[global] Instance task_eq_dec : EqDecision task.
Proof. solve_decision. Defined.

End Methods.

(** ** Functions and handlers of the module *)

(** Computes isotope patterns for all combinations of (molecular formula,
    adduct, charge, instrument settings): the batch it asks for. *)
Definition compute_all_patterns (pattern_storage : IsotopePatternStorage)
  : py (list task) :=
  let settings :=
    (λ pts_per_mz, {| pts_per_mz := pts_per_mz |})
      <$> [2019; 2885; 4039; 5770; 7212; 8078; 14425; 21637; 28850] in
  let adduct_charge_pairs :=
    ((λ adduct, (adduct, 1)) <$> ["+H"; "+K"; "+Na"])
    ++ ((λ adduct, (adduct, -1)) <$> ["-H"; "+Cl"])
    ++ (adduct ← DECOY_ADDUCTS; [(adduct, 1); (adduct, -1)]) in
  batch_generate pattern_storage None (Some settings)
                 (Some adduct_charge_pairs).

(** [IsotopePatternCollection.on_get]: the data frame of the response, with
    the path fields as the strings the router hands over.  The request
    context is taken to hold the session the handlers look up and do not
    use. *)
Definition on_get (_storage : IsotopePatternStorage)
    (db_id charge pts_per_mz : string) : py table :=
  pts_per_mz <- lift (int pts_per_mz) ;;
  let instr := {| pts_per_mz := pts_per_mz |} in
  charge <- lift (int charge) ;;
  db_id <- lift (int db_id) ;;
  load_patterns _storage instr charge (Some db_id) [].

(** What a handler can end with besides the exceptions of the storage: the
    [AttributeError] of a method call on [None]. *)
Inductive handler_exn : Set :=
| AttributeError
| StorageError (e : exn).

Definition handled {A} (m : py A) : world → (A + handler_exn) * world :=
  λ w, match m w with
       | (Ok a, w') => (inl a, w')
       | (Raise e, w') => (inr (StorageError e), w')
       end.

(** [IsotopePatternFDRSubsample.on_post]: [targets] and [decoys] are what
    [req.get_param] gives, [None] for a parameter the request lacks. *)
Definition on_post (_storage : IsotopePatternStorage)
    (targets decoys : option string) (db_id charge pts_per_mz : string)
  : world → (list fdr_row + handler_exn) * world :=
  match targets with
  | None => λ w, (inr AttributeError, w)
  | Some targets =>
      let target_adducts := split_on ","%char targets in
      let decoy_adducts :=
        match decoys with
        | None | Some EmptyString => DECOY_ADDUCTS
        | Some decoys => split_on ","%char decoys
        end in
      handled (
        pts_per_mz <- lift (int pts_per_mz) ;;
        let instr := {| pts_per_mz := pts_per_mz |} in
        charge <- lift (int charge) ;;
        db_id <- lift (int db_id) ;;
        load_fdr_subsample _storage instr charge (Some db_id) target_adducts
                           decoy_adducts 20 (Some 42))
  end.


End Model.

(** ** Small collaborators to run the model on

    An engine that rejects the formulas starting with [?] and gives every
    other one two peaks, a linear congruential generator, a cache of two
    directories and a reader of decimal numerals. *)

Definition toy_pattern (s : string) : option (list float * list float) :=
  match s with
  | String "?" _ => None
  | _ => Some ([12%float; 13%float], [100%float; 1%float])
  end.

Definition toy_engine : Engine := {|
  pattern := list float * list float;
  instrument_model := float;
  isotopePattern := toy_pattern;
  masses := fst;
  pattern_intensities := snd;
  InstrumentModel := λ _ resolving_power, resolving_power;
  addCharge := λ _ p, p;
  centroids := λ _ p, p;
  trimmed := λ n p, (take n p.1, take n p.2);
  sortByMass := λ p, p
|}.

Definition toy_step (g : N) : N * N :=
  let g' := ((g * 6364136223846793005 + 1442695040888963407) mod 2 ^ 64)%N in
  (N.shiftr g' 11, g').

Definition toy_rng : Rng := {|
  rng_state := N;
  init_by_seed := Z.to_N;
  random_sample := toy_step
|}.

Definition digit_of (c : Ascii.ascii) : option Z :=
  let n := Z.of_N (N_of_ascii c) - 48 in
  if bool_decide (0 ≤ n ≤ 9) then Some n else None.

Fixpoint digits (acc : Z) (s : string) : option Z :=
  match s with
  | EmptyString => Some acc
  | String c s' =>
      match digit_of c with
      | Some d => digits (10 * acc + d) s'
      | None => None
      end
  end.

Definition decimal (s : string) : option Z :=
  match s with
  | EmptyString => None
  | String "-" (String _ _ as s') => Z.opp <$> digits 0 s'
  | _ => digits 0 s
  end.

Definition toy_config : Config := {|
  ISOTOPE_CACHE_SIZE := Some 2%nat;
  py_int := decimal
|}.

(** A run in that setting: two databases, one instrument setting, the
    empty file system. *)

Section ToyRun.
#[local] Existing Instances toy_engine toy_rng toy_config.

Definition toy_databases : gmap Z (gset string) :=
  {[ 1 := {[ "A"; "B" ]}; 2 := {[ "B"; "C" ]} ]}.

Definition toy_world : world := World ∅ [] 0%N [].

Definition toy_self : IsotopePatternStorage :=
  match (__init__ toy_databases ["data"] toy_world).1 with
  | Ok self => self
  | Raise _ => {| _dir := []; _mf_cache := ∅ |}
  end.

Definition toy_world_init : world :=
  (__init__ toy_databases ["data"] toy_world).2.

Definition toy_instrument : InstrumentSettings := {| pts_per_mz := 2019 |}.

Definition exec {A} (m : py A) (w : world) : world := (m w).2.

(** The partitions of a target adduct and of three decoy adducts, over all
    databases. *)
Definition toy_world_full : world :=
  foldl (λ w adduct,
           exec (generate_patterns toy_self toy_instrument adduct 1 None) w)
        toy_world_init ["+H"; "+He"; "+Li"; "+Be"].


(** The table a subsample for database 1 loads, and the groups its decoy
    rows come in. *)
Definition toy_targets : list string := ["+H"].
Definition toy_decoys : list string := ["+He"; "+Li"; "+Be"].

Definition toy_table : table :=
  match (load_patterns toy_self toy_instrument 1 (Some 1)
           (toy_targets ++ toy_decoys) toy_world_full).1 with
  | Ok df => df
  | Raise _ => []
  end.

Definition toy_formulas : list string := ["A"; "B"].

Definition toy_groups : list table :=
  [block 3 0 (decoy_rows toy_targets toy_table);
   block 3 1 (decoy_rows toy_targets toy_table)].


(** A subsample of two decoys per target under the seed 42. *)
Definition toy_call : result (list fdr_row) * world :=
  load_fdr_subsample toy_self toy_instrument 1 (Some 1) toy_targets
    toy_decoys 2 (Some 42) toy_world_full.

Definition toy_out : list fdr_row :=
  match toy_call.1 with
  | Ok out => out
  | Raise _ => []
  end.


(** The formula and adduct of every row of a returned table. *)
Definition rows_of (r : result (list fdr_row)) : list (string * string) :=
  match r with
  | Ok out => (λ r, (mf (base r), adduct (base r))) <$> out
  | Raise _ => []
  end.

(** The same subsample under the seed 0. *)
Definition toy_call_unseeded : py (list fdr_row) :=
  load_fdr_subsample toy_self toy_instrument 1 (Some 1) toy_targets
    toy_decoys 2 (Some 0).


(** The first partition alone, and the worlds before and after a partition
    is added to a directory the cache holds. *)
Definition toy_world_first : world :=
  exec (generate_patterns toy_self toy_instrument "+H" 1 None) toy_world_init.

Definition toy_world_cached : world :=
  exec (load_patterns toy_self toy_instrument 1 None []) toy_world_full.







(** The table of the partition directory of the toy run. *)
Definition toy_loaded : result table * world :=
  _load (_dir_path toy_self toy_instrument 1) toy_world_full.

Definition toy_directory : table :=
  match toy_loaded.1 with
  | Ok df => df
  | Raise _ => []
  end.



(** The subsample without decoys. *)
Definition toy_call_no_decoys : result (list fdr_row) * world :=
  load_fdr_subsample toy_self toy_instrument 1 (Some 1) toy_targets
    toy_decoys 0 (Some 42) toy_world_full.

Definition toy_out_no_decoys : list fdr_row :=
  match toy_call_no_decoys.1 with
  | Ok out => out
  | Raise _ => []
  end.



Definition toy_run_unknown : result unit * world :=
  generate_patterns toy_self toy_instrument "+H" 1 (Some 7) toy_world_init.

(** A request for the patterns of database 1. *)
Definition toy_get : result table * world :=
  on_get toy_self "1" "1" "2019" toy_world_full.

Definition toy_get_out : table :=
  match toy_get.1 with
  | Ok out => out
  | Raise _ => []
  end.


(** The query the subsample of the toy run starts from. *)
Definition toy_query : result table * world :=
  load_patterns toy_self toy_instrument 1 (Some 1)
    (toy_targets ++ toy_decoys) toy_world_full.

(** The new toy storage with a file of another kind in its directory. *)
Definition toy_world_readme : world :=
  World (<[["data"; "README"] := NFile []]> (fs toy_world_init)) [] 0%N [].


(** The rows of the first partition file of the toy run. *)
Definition toy_first_rows : table :=
  match read_table (fs toy_world_first)
          (_path toy_self toy_instrument "+H" 1) with
  | Ok rows => rows
  | Raise _ => []
  end.


End ToyRun.

(** * Properties *)

Section Properties.
Context {engine : Engine} {rng : Rng} {config : Config}.

Notation "x <- m ;; k" := (bind m (λ x, k))
  (at level 100, m at next level, right associativity, only parsing).
Notation "m ;; k" := (bind m (λ _, k))
  (at level 100, right associativity, only parsing).

(** ** The monad *)

Lemma bind_ok {A B} (m : py A) (f : A → py B) w a w' :
  m w = (Ok a, w') → bind m f w = f a w'.
Proof. unfold bind. by intros ->. Qed.

Lemma bind_raise {A B} (m : py A) (f : A → py B) w e w' :
  m w = (Raise e, w') → bind m f w = (Raise e, w').
Proof. unfold bind. by intros ->. Qed.

Lemma run_eta {A} (c : result A * world) (d : A) :
  is_ok c.1 = true →
  c = (Ok (match c.1 with Ok a => a | Raise _ => d end), c.2).
Proof. by destruct c as [[a|e] w]. Qed.



(** ** Construction *)

Lemma add_database_fold (l : list (Z * gset string)) acc :
  let out := foldl add_database acc l in
  out.1 = acc.1 ∪ ⋃ (snd <$> l) ∧
  ∀ k df, out.2 !! k = Some df →
    acc.2 !! k = Some df ∨ ∃ s, (k, s) ∈ l ∧ df = elements s.
Proof.
  revert acc. induction l as [|[k s] l IH]; intros acc; simpl.
  - split; [set_solver | auto].
  - destruct (IH (add_database acc (k, s))) as [Hall Hcache].
    split.
    + rewrite Hall. simpl. set_solver.
    + intros k' df Hk'. destruct (Hcache k' df Hk') as [Hold | (s' & Hin & ->)].
      * simpl in Hold. destruct (decide (k = k')) as [->|Hne].
        -- rewrite lookup_insert_eq in Hold. injection Hold as <-.
           right. exists s. split; [left | done].
        -- rewrite lookup_insert_ne in Hold by done. by left.
      * right. exists s'. split; [by right | done].
Qed.

(** C8. Whatever dictionary of formula sets the storage is built from, the
    entry of the cache under the sentinel [-1] holds exactly the union of
    the sets of all databases; every set handed in and every entry of the
    cache is contained in it. *)
Theorem all_databases_is_union (mol_formulas : gmap Z (gset string))
    (directory : path) (w w' : world) (self : IsotopePatternStorage) :
  __init__ mol_formulas directory w = (Ok self, w') →
  ∃ all_mfs : list string,
    _mf_cache self !! (-1) = Some all_mfs ∧
    list_to_set all_mfs =@{gset string} ⋃ (snd <$> map_to_list mol_formulas) ∧
    (∀ db_id mfs, mol_formulas !! db_id = Some mfs →
       mfs ⊆ list_to_set all_mfs) ∧
    (∀ db_id df, _mf_cache self !! db_id = Some df →
       list_to_set df ⊆@{gset string} list_to_set all_mfs).
Proof.
  unfold __init__, bind, on_fs, ret. intros Hinit.
  destruct (mkdir directory (fs w)) as [[[]|e] fs']; [|discriminate].
  pose proof (add_database_fold (map_to_list mol_formulas) (∅, ∅)) as Hfold.
  destruct (foldl add_database (∅, ∅) (map_to_list mol_formulas))
    as [all_mfs mf_cache]. simpl in Hfold. destruct Hfold as [Hall Hcache].
  injection Hinit as <- _. simpl.
  assert (Hset : list_to_set (elements all_mfs) = all_mfs)
    by apply leibniz_equiv, list_to_set_elements.
  exists (elements all_mfs). rewrite lookup_insert_eq, Hset.
  split; [done|]. split; [rewrite Hall; set_solver|]. split.
  - intros db_id mfs Hdb. rewrite Hall.
    apply elem_of_map_to_list in Hdb.
    intros x Hx. apply elem_of_union. right.
    apply elem_of_union_list. exists mfs. split; [|done].
    apply list_elem_of_fmap. by exists (db_id, mfs).
  - intros db_id df Hdb. destruct (decide (db_id = -1)) as [->|Hne].
    + rewrite lookup_insert_eq in Hdb. injection Hdb as <-. by rewrite Hset.
    + rewrite lookup_insert_ne in Hdb by done.
      destruct (Hcache db_id df Hdb) as [Hempty | (s & Hin & ->)].
      * by rewrite lookup_empty in Hempty.
      * rewrite Hall. intros x Hx. apply elem_of_list_to_set, elem_of_elements in Hx.
        apply elem_of_union. right. apply elem_of_union_list.
        exists s. split; [|done]. apply list_elem_of_fmap. by exists (db_id, s).
Qed.

(** ** The configuration index *)

(** C5. On the tree the constructor has just made in an empty file system
    (the root and nothing below it) the scan of [_configurations] finds no
    record, the frame built from no record has no column, and both
    [instrument_settings] and [adduct_charge_pairs] stop with a [KeyError]
    instead of giving the empty set. *)
Theorem configuration_index_empty_tree (mol_formulas : gmap Z (gset string))
    (g : rng_state) :
  ∃ self w,
    __init__ mol_formulas ["data"] (World ∅ [] g []) = (Ok self, w) ∧
    iterdir (fs w) (_dir self) = Ok [] ∧
    instrument_settings self w = (Raise KeyError, w) ∧
    adduct_charge_pairs self w = (Raise KeyError, w).
Proof.
  unfold __init__, bind, on_fs, ret. simpl.
  destruct (foldl add_database (∅, ∅) (map_to_list mol_formulas))
    as [all_mfs mf_cache].
  eexists _, _. split; [reflexivity|]. simpl.
  split; [|split]; reflexivity.
Qed.


(** ** Queries *)

Lemma load_np_random filename g w :
  _load filename (set_np_random g w) =
  ((_load filename w).1, set_np_random g (_load filename w).2).
Proof.
  unfold _load, bind, get_fs, _load_dir, _load_single_file, lift, set_lru,
    set_np_random; simpl.
  destruct (is_dir (fs w) filename); simpl; [|done].
  destruct (cache_find filename (lru w)); simpl; [done|].
  destruct (read_dir (fs w) filename); done.
Qed.

Lemma load_patterns_np_random self instr charge db_id adducts g w :
  load_patterns self instr charge db_id adducts (set_np_random g w) =
  ((load_patterns self instr charge db_id adducts w).1,
   set_np_random g (load_patterns self instr charge db_id adducts w).2).
Proof.
  unfold load_patterns, bind. rewrite load_np_random.
  destruct (_load _ w) as [[df|e] w']; simpl; [|done].
  unfold _molecular_formulas, ret, raise.
  destruct db_id as [[| |]|]; simpl; try done;
    destruct (_mf_cache self !! _); done.
Qed.


(** C6 as the code has it. A query that names a database id other than 0
    which the storage does not know never returns a table: when the
    partition directory loads, the lookup of the formulas stops the call
    with a [KeyError]. *)
Theorem load_patterns_unknown_database self instr charge (db_id : Z) adducts w :
  db_id ≠ 0 →
  _mf_cache self !! db_id = None →
  ∃ e, (load_patterns self instr charge (Some db_id) adducts w).1 = Raise e ∧
       (is_ok (_load (_dir_path self instr charge) w).1 = true → e = KeyError).
Proof.
  intros Hnz Hunknown. unfold load_patterns, bind.
  destruct (_load _ w) as [[df|e] w']; simpl.
  - exists KeyError. split; [|done].
    unfold _molecular_formulas. simpl. rewrite Hunknown.
    by destruct db_id.
  - exists e. split; [by destruct db_id|done].
Qed.

(** A database id of 0 counts as no id: the table is returned as loaded,
    restricted to the adducts asked for. *)
Lemma load_patterns_database_zero self instr charge adducts w :
  load_patterns self instr charge (Some 0) adducts w =
  load_patterns self instr charge None adducts w.
Proof. reflexivity. Qed.

(** ** The FDR subsample *)

Lemma filter_none {A} (P : A → Prop) `{!∀ x, Decision (P x)} (l : list A) :
  Forall (λ x, ¬ P x) l → filter P l = [].
Proof.
  induction 1 as [|x l Hx _ IH]; [done|].
  by rewrite filter_cons_False.
Qed.

Lemma groupby_is_target_two df decoy_df target_df :
  groupby_is_target df = [decoy_df; target_df] →
  decoy_df = filter (λ r, is_target r = false) df ∧
  target_df = filter (λ r, is_target r = true) df ∧
  decoy_df ≠ [] ∧ target_df ≠ [].
Proof.
  unfold groupby_is_target. rewrite !filter_cons, filter_nil.
  repeat case_decide; intros Heq; simplify_eq. done.
Qed.

Lemma seed_if_given_spec random_seed w :
  (∃ e, seed_if_given random_seed w = (Raise e, w)) ∨
  (∃ g, seed_if_given random_seed w = (Ok tt, set_np_random g w)).
Proof.
  destruct w as [fs0 lru0 g0 log0].
  destruct random_seed as [[|s|s]|]; simpl; unfold np_random_seed, ret;
    try case_bool_decide; eauto.
  all: right; eexists; reflexivity.
Qed.

(** C10. If the table the call loads has only rows of target adducts or
    only rows of other adducts, [load_fdr_subsample] raises. *)
Theorem load_fdr_subsample_one_class self instr charge db_id
    target_adducts decoy_adducts decoys_per_target random_seed w :
  (∀ df, (load_patterns self instr charge db_id
            (target_adducts ++ decoy_adducts) w).1 = Ok df →
         Forall (λ r, adduct r ∈ target_adducts) df ∨
         Forall (λ r, adduct r ∉ target_adducts) df) →
  ∃ e, (load_fdr_subsample self instr charge db_id target_adducts
          decoy_adducts decoys_per_target random_seed w).1 = Raise e.
Proof.
  intros Hclass. unfold load_fdr_subsample, bind.
  destruct (seed_if_given_spec random_seed w) as [[e ->]|[g ->]]; [by eexists|].
  rewrite load_patterns_np_random.
  destruct (load_patterns self instr charge db_id _ w) as [[df|e] w'];
    simpl in *; [|by eexists].
  unfold subsample.
  destruct (groupby_is_target _) as [|decoy_df [|target_df [|]]] eqn:Hgroups;
    try (by eexists).
  apply groupby_is_target_two in Hgroups as (-> & -> & Hdecoy & Htarget).
  exfalso. destruct (Hclass df eq_refl) as [Hall | Hall].
  - apply Hdecoy. apply filter_none, Forall_fmap.
    eapply Forall_impl; [exact Hall|]. simpl. intros r Hr.
    rewrite bool_decide_eq_false. tauto.
  - apply Htarget. apply filter_none, Forall_fmap.
    eapply Forall_impl; [exact Hall|]. simpl. intros r Hr.
    rewrite bool_decide_eq_true. tauto.
Qed.


(** *** Drawing without replacement *)

Lemma insert_by_perm v l : insert_by v l ≡ₚ v :: l.
Proof.
  induction l as [|w l IH]; simpl; [done|].
  destruct (v.1 <=? w.1)%N; [done|].
  rewrite IH. apply Permutation_swap.
Qed.

Lemma argsort_perm xs : argsort xs ≡ₚ seq 0 (length xs).
Proof.
  unfold argsort.
  assert (Hsort : ∀ l, foldr insert_by [] l ≡ₚ l).
  { induction l as [|v l IH]; simpl; [done|]. by rewrite insert_by_perm, IH. }
  rewrite Hsort. rewrite snd_zip; [done|]. by rewrite length_seq.
Qed.

Lemma rand_length n g : length (rand n g).1 = n.
Proof.
  revert g. induction n as [|n IH]; intros g; simpl; [done|].
  destruct (random_sample g) as [x g']. specialize (IH g').
  destruct (rand n g') as [xs g'']. simpl in *. by rewrite IH.
Qed.

Lemma sub_selection_spec n k g :
  (k ≤ n)%nat →
  let sub_selection := take k (argsort (rand n g).1) in
  NoDup sub_selection ∧ length sub_selection = k ∧
  ∀ j, j ∈ sub_selection → (j < n)%nat.
Proof.
  intros Hk sub_selection.
  pose proof (argsort_perm (rand n g).1) as Hperm. rewrite rand_length in Hperm.
  assert (Hnodup : NoDup (argsort (rand n g).1))
    by (rewrite Hperm; apply NoDup_seq).
  split; [|split].
  - eapply sublist_NoDup; [exact Hnodup|apply sublist_take].
  - unfold sub_selection. rewrite length_take_le; [done|].
    rewrite Hperm, length_seq. done.
  - intros j Hj. assert (Hin : j ∈ argsort (rand n g).1).
    { eapply sublist_subseteq; [apply sublist_take|exact Hj]. }
    rewrite Hperm in Hin. apply elem_of_seq in Hin. lia.
Qed.


Section Sampling.
Local Open Scope nat_scope.

Lemma mark_group_length start sub selection :
  length (mark_group start sub selection) = length selection.
Proof.
  unfold mark_group. revert selection.
  induction sub as [|j sub IH]; intros selection; simpl; [done|].
  by rewrite IH, length_insert.
Qed.

Lemma mark_group_keeps_true start sub selection p :
  selection !! p = Some true →
  mark_group start sub selection !! p = Some true.
Proof.
  unfold mark_group. revert selection.
  induction sub as [|j sub IH]; intros selection Hp; simpl; [done|].
  apply IH. destruct (decide (start + j = p)) as [<-|Hne].
  - apply list_lookup_insert_eq. by eapply lookup_lt_Some.
  - by rewrite list_lookup_insert_ne.
Qed.

Lemma mark_group_lookup_in start sub selection j :
  j ∈ sub → start + j < length selection →
  mark_group start sub selection !! (start + j) = Some true.
Proof.
  unfold mark_group. revert selection.
  induction sub as [|j' sub IH]; intros selection Hj Hlt; simpl.
  - by apply elem_of_nil in Hj.
  - apply elem_of_cons in Hj as [->|Hj].
    + apply (mark_group_keeps_true start sub).
      by apply list_lookup_insert_eq.
    + apply IH; [done|]. by rewrite length_insert.
Qed.

Lemma mark_group_lookup_out start sub selection p :
  (∀ j, j ∈ sub → p ≠ start + j) →
  mark_group start sub selection !! p = selection !! p.
Proof.
  unfold mark_group. revert selection.
  induction sub as [|j' sub IH]; intros selection Hp; simpl; [done|].
  rewrite IH.
  - apply list_lookup_insert_ne. intros Heq. apply (Hp j'); [left|done].
  - intros j Hj. apply Hp. by right.
Qed.

Lemma block_lookup {A} n i (l : list A) q :
  block n i l !! q = if decide (q < n) then l !! (i * n + q) else None.
Proof.
  unfold block. case_decide.
  - by rewrite lookup_take_lt, lookup_drop.
  - apply lookup_take_ge. lia.
Qed.

Lemma block_length {A} n i (l : list A) :
  (i + 1) * n ≤ length l → length (block n i l) = n.
Proof. intros. unfold block. rewrite length_take, length_drop. lia. Qed.

Lemma length_filter_fmap {A B} (f : A → B) (P : B → Prop)
    `{!∀ y, Decision (P y)} (l : list A) :
  length (filter P (f <$> l)) = length (filter (λ x, P (f x)) l).
Proof.
  induction l as [|x l IH]; [done|].
  rewrite fmap_cons, !filter_cons. case_decide; simpl; by rewrite IH.
Qed.

(** A block that is true exactly at the places of a duplicate-free list
    counts as many true values as the list is long. *)
Lemma count_true_marked n sub (b : list bool) :
  NoDup sub → (∀ j, j ∈ sub → j < n) →
  length b = n →
  (∀ q, q < n → b !! q = Some (bool_decide (q ∈ sub))) →
  count_true b = length sub.
Proof.
  intros Hnodup Hrange Hlen Hb.
  assert (Heq : b = (λ q, bool_decide (q ∈ sub)) <$> seq 0 n).
  { apply list_eq. intros q. rewrite list_lookup_fmap.
    destruct (decide (q < n)) as [Hq|Hq].
    - rewrite Hb by done. by rewrite lookup_seq_lt.
    - rewrite lookup_ge_None_2 by lia. by rewrite lookup_seq_ge by lia. }
  unfold count_true. rewrite Heq, length_filter_fmap.
  apply Permutation_length, NoDup_Permutation.
  - apply NoDup_filter, NoDup_seq.
  - done.
  - intros q. rewrite list_elem_of_filter, bool_decide_eq_true, elem_of_seq.
    split; [tauto|]. intros Hq. split; [done|]. apply Hrange in Hq. lia.
Qed.

Lemma block_mark_other n i i0 sub selection :
  i ≠ i0 → (∀ j, j ∈ sub → j < n) →
  block n i (mark_group (i0 * n) sub selection) = block n i selection.
Proof.
  intros Hne Hrange. apply list_eq. intros q. rewrite !block_lookup.
  case_decide; [|done]. apply mark_group_lookup_out.
  intros j Hj%Hrange. nia.
Qed.

Lemma block_mark_same n i0 sub selection :
  NoDup sub → (∀ j, j ∈ sub → j < n) →
  (i0 + 1) * n ≤ length selection →
  block n i0 selection = replicate n false →
  count_true (block n i0 (mark_group (i0 * n) sub selection)) = length sub.
Proof.
  intros Hnodup Hrange Hlen Hfalse.
  apply (count_true_marked n); [done|done| |].
  - apply block_length. by rewrite mark_group_length.
  - intros q Hq. rewrite block_lookup, decide_True by done.
    case_bool_decide as Hin.
    + apply mark_group_lookup_in; [done|]. lia.
    + rewrite mark_group_lookup_out.
      * assert (Hb : block n i0 selection !! q = Some false)
          by (rewrite Hfalse; by apply lookup_replicate_2).
        by rewrite block_lookup, decide_True in Hb.
      * intros j Hj Heq. assert (q = j) by lia. by subst.
Qed.

(** Every round of [_select_decoys] leaves exactly [decoys_per_target]
    true values in its own block and touches no other block. *)
Lemma select_groups_spec n k groups : ∀ selection g,
  k ≤ n → NoDup groups →
  (∀ i, i ∈ groups → (i + 1) * n ≤ length selection) →
  let out := (select_groups n k groups selection g).1 in
  length out = length selection ∧
  (∀ i, i ∉ groups → block n i out = block n i selection) ∧
  (∀ i, i ∈ groups → block n i selection = replicate n false →
        count_true (block n i out) = k).
Proof.
  induction groups as [|i0 groups IH]; intros selection g Hk Hnodup Hlen; simpl.
  - split; [done|]. split; [done|]. intros i Hi. by apply elem_of_nil in Hi.
  - destruct (sub_selection_spec n k g Hk) as (Hsub & Hsublen & Hrange).
    destruct (rand n g) as [draws g'] eqn:Hrand. simpl in *.
    apply NoDup_cons in Hnodup as [Hfresh Hnodup].
    set (selection1 := mark_group (i0 * n) (take k (argsort draws)) selection).
    destruct (IH selection1 g' Hk Hnodup) as (IHlen & IHout & IHin).
    { intros i Hi. unfold selection1. rewrite mark_group_length.
      apply Hlen. by right. }
    split; [|split].
    + rewrite IHlen. apply mark_group_length.
    + intros i Hi. apply not_elem_of_cons in Hi as [Hne Hi].
      rewrite IHout by done. by apply block_mark_other.
    + intros i Hi Hfalse. destruct (decide (i = i0)) as [->|Hne].
      * rewrite IHout by done. unfold selection1.
        rewrite block_mark_same; try done. apply Hlen. by left.
      * apply elem_of_cons in Hi as [?|Hi]; [done|].
        apply IHin; [done|]. unfold selection1.
        by rewrite block_mark_other.
Qed.

Lemma select_decoys_blocks n k n_mf n_rows g :
  k ≤ n → n_mf * n ≤ n_rows →
  let selection :=
    (select_groups n k (seq 0 n_mf) (replicate n_rows false) g).1 in
  length selection = n_rows ∧
  ∀ i, i < n_mf → count_true (block n i selection) = k.
Proof.
  intros Hk Hrows selection.
  destruct (select_groups_spec n k (seq 0 n_mf) (replicate n_rows false) g)
    as (Hlen & _ & Hin); [done|apply NoDup_seq| |].
  { intros i Hi%elem_of_seq. rewrite length_replicate. nia. }
  split; [unfold selection; by rewrite Hlen, length_replicate|].
  intros i Hi. apply Hin; [apply elem_of_seq; lia|].
  apply list_eq. intros q. rewrite block_lookup.
  destruct (decide (q < n)) as [Hq|Hq].
  - rewrite !lookup_replicate_2; [done|lia|nia].
  - symmetry. apply lookup_replicate_None. lia.
Qed.


Lemma for_each_cons {A S} (x : A) (l : list A) (body : A → S → py S) s w :
  for_each (x :: l) body s w =
  match body x s w with
  | (Ok s', w') => for_each l body s' w'
  | (Raise e, w') => (Raise e, w')
  end.
Proof. reflexivity. Qed.

(** *** Columns *)

Lemma set_column_spec t values : ∀ df,
  length values = length df →
  length (set_column t values df) = length df ∧
  base <$> set_column t values df = base <$> df ∧
  is_target <$> set_column t values df = is_target <$> df ∧
  column t (set_column t values df) = Some <$> values ∧
  ∀ t', t' ≠ t → column t' (set_column t values df) = column t' df.
Proof.
  unfold set_column, column.
  induction values as [|b values IH]; intros [|r df] Hlen; simplify_eq/=.
  - done.
  - destruct (IH df) as (IH1 & IH2 & IH3 & IH4 & IH5); [done|].
    rewrite IH1, IH2, IH3, IH4, lookup_insert_eq.
    repeat split; try done.
    intros t' Hne. rewrite IH5 by done. by rewrite lookup_insert_ne.
Qed.

(** The loop of [load_fdr_subsample] over the target adducts: it returns,
    moves only the generator, keeps the rows, gives every target row false
    in every target column, and gives the decoy rows in every target column
    a selection with [k] true values in each block. *)
Lemma subsample_loop n_rows n_mf n k (targets : list string) : ∀ tdf ddf w,
  k ≤ n → n_mf * n ≤ n_rows → length ddf = n_rows →
  ∃ tdf' ddf' g',
    for_each targets (λ adduct dfs,
        selection <- _select_decoys n_rows n_mf n k ;;
        ret (set_column adduct (replicate (length dfs.1) false) dfs.1,
             set_column adduct selection dfs.2))
      (tdf, ddf) w = (Ok (tdf', ddf'), set_np_random g' w) ∧
    base <$> tdf' = base <$> tdf ∧ is_target <$> tdf' = is_target <$> tdf ∧
    base <$> ddf' = base <$> ddf ∧ is_target <$> ddf' = is_target <$> ddf ∧
    (∀ t, t ∉ targets →
       column t tdf' = column t tdf ∧ column t ddf' = column t ddf) ∧
    (∀ t, t ∈ targets →
       column t tdf' = replicate (length tdf) (Some false) ∧
       ∃ selection, column t ddf' = Some <$> selection ∧
         length selection = n_rows ∧
         ∀ i, i < n_mf → count_true (block n i selection) = k).
Proof.
  induction targets as [|t0 targets IH]; intros tdf ddf w Hk Hrows Hlen.
  - exists tdf, ddf, (np_random w). destruct w. simpl. unfold ret, set_np_random.
    simpl. repeat split; try done.
    all: match goal with Ht : _ ∈ [] |- _ => by apply elem_of_nil in Ht end.
  - rewrite for_each_cons. unfold bind at 1. unfold _select_decoys.
    pose proof (select_decoys_blocks n k n_mf n_rows (np_random w) Hk Hrows)
      as [Hsel_len Hsel_blocks].
    destruct (select_groups n k (seq 0 n_mf) (replicate n_rows false)
                (np_random w)) as [selection0 g0]. simpl in *.
    unfold ret at 1. simpl.
    destruct (set_column_spec t0 (replicate (length tdf) false) tdf)
      as (Ht1 & Ht2 & Ht3 & Ht4 & Ht5); [by rewrite length_replicate|].
    destruct (set_column_spec t0 selection0 ddf)
      as (Hd1 & Hd2 & Hd3 & Hd4 & Hd5); [congruence|].
    destruct (IH (set_column t0 (replicate (length tdf) false) tdf)
                 (set_column t0 selection0 ddf)
                 (World (fs w) (lru w) g0 (engine_log w)) Hk Hrows)
      as (tdf' & ddf' & g' & Hrun & Hb1 & Hb2 & Hb3 & Hb4 & Hout & Hin);
      [congruence|].
    exists tdf', ddf', g'.
    split; [exact Hrun|]. rewrite Hb1, Hb2, Hb3, Hb4.
    repeat split; try done.
    + apply not_elem_of_cons in H as [Hne Hnotin].
      destruct (Hout t Hnotin) as [-> _]. by apply Ht5.
    + apply not_elem_of_cons in H as [Hne Hnotin].
      destruct (Hout t Hnotin) as [_ ->]. by apply Hd5.
    + destruct (decide (t ∈ targets)) as [Hint|Hnotin].
      * destruct (Hin t Hint) as [-> _]. by rewrite Ht1.
      * apply elem_of_cons in H as [->|?]; [|done].
        destruct (Hout t0 Hnotin) as [-> _]. rewrite Ht4.
        by rewrite fmap_replicate.
    + destruct (decide (t ∈ targets)) as [Hint|Hnotin].
      * by destruct (Hin t Hint) as [_ ?].
      * apply elem_of_cons in H as [->|?]; [|done].
        destruct (Hout t0 Hnotin) as [_ ->]. rewrite Hd4.
        by exists selection0.
Qed.


(** *** The body of the subsample *)

Lemma filter_fmap {A B} (f : A → B) (P : B → Prop)
    `{!∀ y, Decision (P y)} (l : list A) :
  filter P (f <$> l) = f <$> filter (λ x, P (f x)) l.
Proof.
  induction l as [|x l IH]; [done|].
  rewrite fmap_cons, !filter_cons. case_decide; simpl; by rewrite IH.
Qed.

Lemma groupby_decoy_rows targets df :
  filter (λ r, is_target r = false)
    ((λ r, FdrRow r (bool_decide (adduct r ∈ targets)) ∅) <$> df) =
  (λ r, FdrRow r (bool_decide (adduct r ∈ targets)) ∅) <$> decoy_rows targets df.
Proof.
  rewrite filter_fmap. f_equal. apply list_filter_iff. intros r. simpl.
  by rewrite bool_decide_eq_false.
Qed.

Lemma groupby_target_rows targets df :
  filter (λ r, is_target r = true)
    ((λ r, FdrRow r (bool_decide (adduct r ∈ targets)) ∅) <$> df) =
  (λ r, FdrRow r (bool_decide (adduct r ∈ targets)) ∅) <$> target_rows targets df.
Proof.
  rewrite filter_fmap. f_equal. apply list_filter_iff. intros r. simpl.
  by rewrite bool_decide_eq_true.
Qed.

(** What [subsample] does, case by case: a [ValueError] unless both classes
    have rows, an [AssertionError] if more decoys are asked for than there
    are decoy adducts, and otherwise the target rows followed by the decoy
    rows selected at least once. *)
Lemma subsample_cases df targets k w :
  let n := length (unique (adduct <$> decoy_rows targets df)) in
  let n_rows := length (decoy_rows targets df) in
  ((target_rows targets df = [] ∨ decoy_rows targets df = []) ∧
   subsample df targets k w = (Raise ValueError, w)) ∨
  (target_rows targets df ≠ [] ∧ decoy_rows targets df ≠ [] ∧ n < k ∧
   subsample df targets k w = (Raise AssertionError, w)) ∨
  (target_rows targets df ≠ [] ∧ decoy_rows targets df ≠ [] ∧ k ≤ n ∧
   ∃ tdf ddf g,
     subsample df targets k w =
       (Ok (tdf ++ filter (λ r, 0 < selection_count targets r) ddf),
        set_np_random g w) ∧
     base <$> tdf = target_rows targets df ∧
     base <$> ddf = decoy_rows targets df ∧
     (∀ t, t ∈ targets →
        column t tdf = replicate (length tdf) (Some false) ∧
        ∃ selection, column t ddf = Some <$> selection ∧
          length selection = n_rows ∧
          ∀ i, i < n_rows / n → count_true (block n i selection) = k)).
Proof.
  intros n n_rows. unfold subsample, groupby_is_target.
  rewrite groupby_decoy_rows, groupby_target_rows.
  rewrite !filter_cons, filter_nil.
  destruct (decoy_rows targets df) as [|d0 decoys] eqn:Hdecoys.
  { left. split; [by right|]. simpl. by repeat case_decide. }
  destruct (target_rows targets df) as [|t0 tgts] eqn:Htargets.
  { left. split; [by left|]. simpl. by repeat case_decide. }
  right. rewrite !decide_True by done.
  set (mk := λ r, FdrRow r (bool_decide (adduct r ∈ targets)) ∅).
  assert (Hadducts : adduct ∘ base <$> (mk <$> d0 :: decoys) = adduct <$> d0 :: decoys).
  { rewrite <- list_fmap_compose. done. }
  rewrite Hadducts. rewrite !length_fmap. fold n. fold n_rows.
  case_bool_decide as Hk.
  - right. split; [done|]. split; [done|]. split; [done|].
    destruct (subsample_loop n_rows (n_rows / n) n k targets
                (mk <$> t0 :: tgts) (mk <$> d0 :: decoys) w Hk)
      as (tdf & ddf & g & Hrun & Hb1 & _ & Hb2 & _ & _ & Hin).
    { rewrite Nat.mul_comm. apply Nat.Div0.mul_div_le. }
    { by rewrite length_fmap. }
    exists tdf, ddf, g. rewrite (bind_ok _ _ _ _ _ Hrun). split; [done|].
    rewrite Hb1, Hb2, <- !list_fmap_compose. rewrite !list_fmap_id.
    split; [done|]. split; [done|]. intros t Ht.
    destruct (Hin t Ht) as [Hcol Hsel]. split; [|done].
    rewrite Hcol. f_equal. apply (f_equal length) in Hb1.
    rewrite !length_fmap in Hb1. rewrite length_fmap. by rewrite Hb1.
  - left. split; [done|]. split; [done|]. split; [lia|done].
Qed.


Lemma load_fdr_subsample_ok self instr charge db_id targets decoys k seed
    w out w' :
  load_fdr_subsample self instr charge db_id targets decoys k seed w
    = (Ok out, w') →
  ∃ df g,
    (load_patterns self instr charge db_id (targets ++ decoys) w).1 = Ok df ∧
    subsample df targets k
      (set_np_random g
         (load_patterns self instr charge db_id (targets ++ decoys) w).2)
      = (Ok out, w').
Proof.
  unfold load_fdr_subsample. intros Hrun.
  destruct (seed_if_given_spec seed w) as [[e Hseed]|[g Hseed]].
  { by rewrite (bind_raise _ _ _ _ _ Hseed) in Hrun. }
  rewrite (bind_ok _ _ _ _ _ Hseed) in Hrun.
  unfold bind in Hrun. rewrite load_patterns_np_random in Hrun.
  destruct (load_patterns self instr charge db_id _ w) as [[df|e] w1];
    simpl in *; [|done].
  by exists df, g.
Qed.

Lemma selection_count_pos targets r :
  0 < selection_count targets r →
  ∃ t, t ∈ targets ∧ selected r !! t = Some true.
Proof.
  unfold selection_count. induction targets as [|t targets IH];
    [simpl; lia|].
  rewrite fmap_cons. cbn [sum_list sum_list_with]. intros Hpos.
  destruct (selected r !! t) as [[]|] eqn:Ht.
  - exists t. split; [left|done].
  - destruct IH as (t' & Hin & Ht'); [exact Hpos|].
    exists t'. split; [by right|done].
  - destruct IH as (t' & Hin & Ht'); [exact Hpos|].
    exists t'. split; [by right|done].
Qed.

Lemma selection_count_of targets r t :
  t ∈ targets → selected r !! t = Some true → 0 < selection_count targets r.
Proof.
  unfold selection_count. induction targets as [|t' targets IH].
  - intros Hin. by apply elem_of_nil in Hin.
  - rewrite fmap_cons. cbn [sum_list sum_list_with].
    unfold id. intros [->|Hin]%elem_of_cons Ht; [rewrite Ht; lia|].
    specialize (IH Hin Ht).
    eapply Nat.lt_le_trans; [exact IH|apply Nat.le_add_l].
Qed.

Lemma column_all_false t (df : list fdr_row) r :
  column t df = replicate (length df) (Some false) →
  r ∈ df → selected r !! t = Some false.
Proof.
  intros Hcol [i Hi]%list_elem_of_lookup.
  assert (Hlook : column t df !! i = Some (selected r !! t)).
  { unfold column. by rewrite list_lookup_fmap, Hi. }
  rewrite Hcol in Hlook. apply lookup_replicate in Hlook as [? _]. done.
Qed.

(** C3. In the table a call returns, every row of a decoy adduct is true in
    the column of at least one target adduct, and every row of a target
    adduct is false in the column of every target adduct. *)
Theorem load_fdr_subsample_coverage self instr charge db_id
    target_adducts decoy_adducts decoys_per_target random_seed w out w' :
  load_fdr_subsample self instr charge db_id target_adducts decoy_adducts
    decoys_per_target random_seed w = (Ok out, w') →
  ∀ r, r ∈ out →
    (adduct (base r) ∉ target_adducts →
       ∃ t, t ∈ target_adducts ∧ selected r !! t = Some true) ∧
    (adduct (base r) ∈ target_adducts →
       ∀ t, t ∈ target_adducts → selected r !! t = Some false).
Proof.
  intros (df & g & _ & Hrun)%load_fdr_subsample_ok r Hr.
  destruct (subsample_cases df target_adducts decoys_per_target
              (set_np_random g (load_patterns self instr charge db_id
                                  (target_adducts ++ decoy_adducts) w).2))
    as [[_ Hcase]|[(_ & _ & _ & Hcase)|(_ & _ & _ & Hcase)]];
    [congruence|congruence|].
  destruct Hcase as (tdf & ddf & g' & Hcase & Htargets & Hdecoys & Hcols).
  rewrite Hcase in Hrun. injection Hrun as <- _.
  assert (Htdf : ∀ r', r' ∈ tdf → adduct (base r') ∈ target_adducts).
  { intros r' Hr'. assert (Hin : base r' ∈ target_rows target_adducts df).
    { rewrite <- Htargets. by apply list_elem_of_fmap_2. }
    by apply list_elem_of_filter in Hin as [? _]. }
  assert (Hddf : ∀ r', r' ∈ ddf → adduct (base r') ∉ target_adducts).
  { intros r' Hr'. assert (Hin : base r' ∈ decoy_rows target_adducts df).
    { rewrite <- Hdecoys. by apply list_elem_of_fmap_2. }
    by apply list_elem_of_filter in Hin as [? _]. }
  apply elem_of_app in Hr as [Hr|Hr].
  - split; [intros Hno; by apply Htdf in Hr|].
    intros _ t Ht. destruct (Hcols t Ht) as [Hfalse _].
    by apply (column_all_false t tdf).
  - apply list_elem_of_filter in Hr as [Hcount Hr].
    split; [intros _; by apply selection_count_pos|].
    intros Hyes. by apply Hddf in Hr.
Qed.


(** *** Counting the marked rows of one formula *)

Lemma filter_ext_in {A} (P Q : A → Prop) `{!∀ x, Decision (P x)}
    `{!∀ x, Decision (Q x)} (l : list A) :
  (∀ x, x ∈ l → P x ↔ Q x) → filter P l = filter Q l.
Proof.
  induction l as [|x l IH]; intros Hext; [done|].
  rewrite !filter_cons.
  rewrite IH by (intros y Hy; apply Hext; by right).
  destruct (decide (P x)) as [HP|HP], (decide (Q x)) as [HQ|HQ]; try done.
  - destruct HQ. apply Hext; [left|done].
  - destruct HP. apply Hext; [left|done].
Qed.

Lemma NoDup_fmap_filter {A B} (f : A → B) (P : A → Prop)
    `{!∀ x, Decision (P x)} (l : list A) :
  NoDup (f <$> l) → NoDup (f <$> filter P l).
Proof.
  induction l as [|x l IH]; [done|].
  rewrite fmap_cons, filter_cons. intros [Hx Hl]%NoDup_cons.
  case_decide; [|by apply IH].
  rewrite fmap_cons. apply NoDup_cons. split; [|by apply IH].
  intros (y & Hy & Hin)%list_elem_of_fmap.
  apply list_elem_of_filter in Hin as [_ Hin].
  apply Hx. apply list_elem_of_fmap. by exists y.
Qed.

Lemma concat_length_uniform {A} n (groups : list (list A)) :
  Forall (λ g, length g = n) groups →
  length (concat groups) = length groups * n.
Proof.
  induction 1 as [|g groups Hg _ IH]; simpl; [done|].
  rewrite length_app, IH, Hg. lia.
Qed.

Lemma group_formulas {P : string → table → Prop} formulas groups r :
  Forall2 (λ f g, Forall (λ r, mf r = f) g ∧ P f g) formulas groups →
  r ∈ concat groups → mf r ∈ formulas.
Proof.
  induction 1 as [|f g formulas groups [Hf _] _ IH]; simpl.
  - intros Hr. by apply elem_of_nil in Hr.
  - intros [Hr|Hr]%elem_of_app.
    + apply elem_of_cons. left. by apply (proj1 (Forall_forall _ _) Hf).
    + apply elem_of_cons. right. by apply IH.
Qed.

Lemma count_column t (rows : list fdr_row) : ∀ selection,
  column t rows = Some <$> selection →
  length (filter (λ r, selected r !! t = Some true) rows) = count_true selection.
Proof.
  unfold column, count_true.
  induction rows as [|r rows IH]; intros [|b selection] Hcol;
    simplify_eq/=; [done|].
  rewrite !filter_cons, H. specialize (IH selection H0).
  destruct b; repeat case_decide; simplify_eq/=; by rewrite ?IH.
Qed.

Lemma marked_in_group n k (rows : list fdr_row) groups formulas
    (selection : list bool) t i f :
  base <$> rows = concat groups →
  column t rows = Some <$> selection →
  Forall2 (λ f g, Forall (λ r, mf r = f) g ∧
                  length g = n ∧ NoDup (adduct <$> g)) formulas groups →
  NoDup formulas →
  formulas !! i = Some f →
  count_true (block n i selection) = k →
  let marked :=
    filter (λ r, mf (base r) = f ∧ selected r !! t = Some true) rows in
  length marked = k ∧ NoDup (adduct ∘ base <$> marked).
Proof.
  intros Hbase Hcol Hgroups Hnodup Hf Hcount.
  destruct (Forall2_lookup_l _ _ _ _ _ Hgroups Hf) as (g & Hg & Hmf & Hlen & Hadd).
  pose proof (take_drop_middle _ _ _ Hg) as Hsplit.
  pose proof (take_drop_middle _ _ _ Hf) as Hfsplit.
  pose proof (Forall2_take _ _ _ i Hgroups) as Hbefore.
  pose proof (Forall2_drop _ _ _ (S i) Hgroups) as Hafter.
  rewrite <- Hfsplit in Hnodup.
  apply NoDup_app in Hnodup as (_ & Hfresh1 & [Hfresh2 _]%NoDup_cons).
  rewrite <- Hsplit in Hbase. rewrite concat_app in Hbase. simpl in Hbase.
  apply fmap_app_inv in Hbase as (rows1 & rows' & Hb1 & Hb' & ->).
  symmetry in Hb'.
  apply fmap_app_inv in Hb' as (rows2 & rows3 & Hb2 & Hb3 & ->).
  assert (Hlen1 : length rows1 = i * n).
  { apply (f_equal length) in Hb1. rewrite length_fmap in Hb1.
    rewrite <- Hb1, (concat_length_uniform n).
    - rewrite length_take_le; [done|]. apply lookup_lt_Some in Hg. lia.
    - apply Forall_take. eapply Forall2_Forall_r; [exact Hgroups|].
      apply Forall_forall. intros ? _ ? (_ & ? & _). done. }
  assert (Hlen2 : length rows2 = n).
  { apply (f_equal length) in Hb2. rewrite length_fmap in Hb2. congruence. }
  unfold column in Hcol. rewrite !fmap_app in Hcol. symmetry in Hcol.
  apply fmap_app_inv in Hcol as (sel1 & sel' & Hc1 & Hc' & ->).
  symmetry in Hc'.
  apply fmap_app_inv in Hc' as (sel2 & sel3 & Hc2 & Hc3 & ->).
  assert (Hblock : block n i (sel1 ++ sel2 ++ sel3) = sel2).
  { unfold block. apply (f_equal length) in Hc1, Hc2.
    rewrite !length_fmap in Hc1, Hc2.
    rewrite drop_app_length' by lia. apply take_app_length'. lia. }
  rewrite Hblock in Hcount.
  assert (Hout : ∀ rs gs fs',
            base <$> rs = concat gs →
            Forall2 (λ f g, Forall (λ r, mf r = f) g ∧
                            length g = n ∧ NoDup (adduct <$> g)) fs' gs →
            f ∉ fs' →
            filter (λ r, mf (base r) = f ∧ selected r !! t = Some true) rs = []).
  { intros rs gs fs' Hrs Hfg Hfresh. apply filter_none, Forall_forall.
    intros r Hr [Hmfr _]. apply Hfresh. rewrite <- Hmfr.
    eapply group_formulas; [exact Hfg|]. rewrite <- Hrs.
    by apply list_elem_of_fmap_2. }
  intros marked. unfold marked. rewrite !filter_app.
  rewrite (Hout rows1 _ _ (eq_sym Hb1) Hbefore).
  2: { intros Hin. apply (Hfresh1 f Hin). left. }
  rewrite (Hout rows3 _ _ (eq_sym Hb3) Hafter) by done.
  rewrite app_nil_l, app_nil_r.
  assert (Hsame : filter (λ r, mf (base r) = f ∧ selected r !! t = Some true) rows2
                  = filter (λ r, selected r !! t = Some true) rows2).
  { apply filter_ext_in. intros r Hr. split; [tauto|]. intros Ht. split; [|done].
    apply (proj1 (Forall_forall _ _) Hmf). rewrite Hb2.
    by apply list_elem_of_fmap_2. }
  rewrite Hsame. split.
  - rewrite <- Hcount. unfold count_true.
    by apply count_column.
  - apply NoDup_fmap_filter. rewrite list_fmap_compose, <- Hb2. done.
Qed.


Lemma seed_if_given_in_range random_seed w :
  seed_in_range random_seed →
  ∃ g, seed_if_given random_seed w = (Ok tt, set_np_random g w).
Proof.
  intros Hseed. destruct w as [fs0 lru0 g0 log0].
  destruct random_seed as [[|s|s]|]; unfold seed_in_range in Hseed;
    unfold seed_if_given, np_random_seed, ret, set_np_random;
    try rewrite (bool_decide_eq_true_2 _ Hseed); eauto.
Qed.

(** C2. Let the table the call loads have its decoy rows in groups, one per
    formula, each group with one row for every decoy adduct, and let
    [decoys_per_target] be at most the number of decoy adducts.  Then the
    call returns as soon as both classes have rows and the seed is one numpy
    takes, and in the table it returns, for every target adduct and every
    formula of the groups, the rows of that formula that are true in the
    column of that target adduct are exactly [decoys_per_target] rows, of
    pairwise different adducts, all of them decoy adducts. *)
Theorem load_fdr_subsample_decoy_count self instr charge db_id
    target_adducts decoy_adducts decoys_per_target random_seed w
    df formulas groups :
  (load_patterns self instr charge db_id
     (target_adducts ++ decoy_adducts) w).1 = Ok df →
  grouped_by_formula (decoy_rows target_adducts df) formulas groups →
  decoys_per_target ≤ length (unique (adduct <$> decoy_rows target_adducts df)) →
  (seed_in_range random_seed →
   target_rows target_adducts df ≠ [] →
   decoy_rows target_adducts df ≠ [] →
   ∃ out w',
     load_fdr_subsample self instr charge db_id target_adducts decoy_adducts
       decoys_per_target random_seed w = (Ok out, w')) ∧
  ∀ out w',
    load_fdr_subsample self instr charge db_id target_adducts decoy_adducts
      decoys_per_target random_seed w = (Ok out, w') →
    ∀ t f, t ∈ target_adducts → f ∈ formulas →
      let marked :=
        filter (λ r, mf (base r) = f ∧ selected r !! t = Some true) out in
      length marked = decoys_per_target ∧
      NoDup (adduct ∘ base <$> marked) ∧
      Forall (λ r, adduct (base r) ∉ target_adducts) marked.
Proof.
  intros Hload Hgrouped Hk. split.
  - intros Hseed Htargets Hdecoys. unfold load_fdr_subsample.
    destruct (seed_if_given_in_range random_seed w Hseed) as [g Hg].
    rewrite (bind_ok _ _ _ _ _ Hg). unfold bind at 1.
    rewrite load_patterns_np_random, Hload.
    match goal with |- context [subsample df target_adducts decoys_per_target ?w1] =>
      destruct (subsample_cases df target_adducts decoys_per_target w1)
        as [[[?|?] _]|[(_ & _ & ? & _)|(_ & _ & _ & Hcase)]] end;
      [done|done|lia|].
    destruct Hcase as (tdf & ddf & g' & -> & _). eauto.
  - intros out w' Hrun t f Ht Hf marked.
    apply load_fdr_subsample_ok in Hrun as (df' & g & Hload' & Hrun).
    rewrite Hload in Hload'. injection Hload' as <-.
    match type of Hrun with subsample _ _ _ ?w1 = _ =>
      destruct (subsample_cases df target_adducts decoys_per_target w1)
        as [[_ Hcase]|[(_ & _ & _ & Hcase)|(_ & Hdecoys & _ & Hcase)]] end;
      [congruence|congruence|].
    destruct Hcase as (tdf & ddf & g' & Hcase & Htbase & Hdbase & Hcols).
    rewrite Hcase in Hrun. injection Hrun as <- _.
    destruct Hgrouped as (Hconcat & Hnodup & Hgroups).
    destruct (Hcols t Ht) as [Hfalse (selection & Hcol & Hsel_len & Hblocks)].
    apply list_elem_of_lookup in Hf as [i Hi].
    set (n := length (unique (adduct <$> decoy_rows target_adducts df))) in *.
    assert (Hn : n ≠ 0).
    { unfold n. destruct (decoy_rows target_adducts df); [done|]. simpl. lia. }
    assert (Huniform : Forall (λ g, length g = n) groups).
    { eapply Forall2_Forall_r; [exact Hgroups|].
      apply Forall_forall. intros ? _ ? (_ & ? & _). done. }
    assert (Hi_lt : i < length (decoy_rows target_adducts df) / n).
    { rewrite Hconcat at 1. rewrite (concat_length_uniform n) by done.
      rewrite Nat.div_mul by done.
      rewrite <- (Forall2_length _ _ _ Hgroups). by eapply lookup_lt_Some. }
    destruct (marked_in_group n decoys_per_target ddf groups formulas
                selection t i f) as [Hlen Hadducts]; try done.
    { by rewrite Hdbase. }
    { by apply Hblocks. }
    assert (Hmarked : marked =
      filter (λ r, mf (base r) = f ∧ selected r !! t = Some true) ddf).
    { unfold marked. rewrite filter_app.
      rewrite (filter_none _ tdf).
      - simpl. apply list_filter_filter_l. intros r [_ Hr].
        by eapply selection_count_of.
      - apply Forall_forall. intros r Hr [_ Htrue].
        rewrite (column_all_false t tdf r Hfalse Hr) in Htrue. done. }
    rewrite Hmarked. split; [done|]. split; [done|].
    apply Forall_forall. intros r [_ Hr]%list_elem_of_filter.
    assert (Hin : base r ∈ decoy_rows target_adducts df).
    { rewrite <- Hdbase. by apply list_elem_of_fmap_2. }
    by apply list_elem_of_filter in Hin as [? _].
Qed.


End Sampling.


(** ** Reproducible subsamples *)

Lemma load_dir_again directory w :
  fs (_load_dir directory w).2 = fs w ∧
  (_load_dir directory (_load_dir directory w).2).1 = (_load_dir directory w).1.
Proof.
  unfold _load_dir.
  destruct (cache_find directory (lru w)) as [df|] eqn:Hfind; simpl.
  - split; [done|]. by rewrite decide_True.
  - destruct (read_dir (fs w) directory) as [df|e] eqn:Hread; simpl.
    + split; [done|]. unfold cache_bound.
      destruct ISOTOPE_CACHE_SIZE as [[|n]|]; simpl.
      * by rewrite Hread.
      * by rewrite decide_True.
      * by rewrite decide_True.
    + split; [done|]. by rewrite Hfind, Hread.
Qed.

Lemma load_again filename w :
  fs (_load filename w).2 = fs w ∧
  (_load filename (_load filename w).2).1 = (_load filename w).1.
Proof.
  destruct (load_dir_again filename w) as [Hfs Hagain].
  unfold _load, bind, get_fs, _load_single_file, lift in *. simpl.
  destruct (is_dir (fs w) filename) eqn:Hdir; simpl.
  - split; [done|]. by rewrite Hfs, Hdir.
  - by rewrite Hdir.
Qed.

Lemma load_patterns_world self instr charge db_id adducts w :
  (load_patterns self instr charge db_id adducts w).2 =
  (_load (_dir_path self instr charge) w).2.
Proof.
  unfold load_patterns, bind.
  destruct (_load _ w) as [[df|e] w1]; simpl; [|done].
  unfold _molecular_formulas, ret, raise.
  destruct db_id as [[| |]|]; simpl; try done;
    destruct (_mf_cache self !! _); done.
Qed.

Lemma load_patterns_again self instr charge db_id adducts w :
  (load_patterns self instr charge db_id adducts
     (load_patterns self instr charge db_id adducts w).2).1 =
  (load_patterns self instr charge db_id adducts w).1.
Proof.
  rewrite load_patterns_world.
  destruct (load_again (_dir_path self instr charge) w) as [_ Hagain].
  unfold load_patterns, bind.
  destruct (_load _ w) as [[df|e] w1]; simpl in *;
    destruct (_load _ w1) as [[df'|e'] w2]; simplify_eq/=; try done.
  unfold _molecular_formulas, ret, raise.
  destruct db_id as [[| |]|]; simpl; try done;
    destruct (_mf_cache self !! _); done.
Qed.

(** The loop over the target adducts reads and moves the generator only. *)
Local Abbreviation round n_rows n_mf n k :=
  (λ (adduct : string) (dfs : list fdr_row * list fdr_row),
     selection <- _select_decoys n_rows n_mf n k ;;
     ret (set_column adduct (replicate (length dfs.1) false) dfs.1,
          set_column adduct selection dfs.2)).

Lemma subsample_round_cons n_rows n_mf n k t targets dfs w :
  for_each (t :: targets) (round n_rows n_mf n k) dfs w =
  let sg := select_groups n k (seq 0 n_mf) (replicate n_rows false)
              (np_random w) in
  for_each targets (round n_rows n_mf n k)
    (set_column t (replicate (length dfs.1) false) dfs.1,
     set_column t sg.1 dfs.2)
    (set_np_random sg.2 w).
Proof.
  rewrite for_each_cons. unfold bind at 1. unfold _select_decoys at 1.
  by destruct (select_groups n k (seq 0 n_mf) (replicate n_rows false)
                 (np_random w)) as [selection g].
Qed.

Lemma subsample_loop_generator n_rows n_mf n k (targets : list string) :
  ∀ dfs w1 w2,
  np_random w1 = np_random w2 →
  (for_each targets (round n_rows n_mf n k) dfs w1).1 =
    (for_each targets (round n_rows n_mf n k) dfs w2).1 ∧
  np_random (for_each targets (round n_rows n_mf n k) dfs w1).2 =
    np_random (for_each targets (round n_rows n_mf n k) dfs w2).2.
Proof.
  induction targets as [|t targets IH]; intros dfs w1 w2 Hnp.
  - done.
  - rewrite !subsample_round_cons. cbv zeta. rewrite Hnp. by apply IH.
Qed.

Lemma subsample_generator df targets k w1 w2 :
  np_random w1 = np_random w2 →
  (subsample df targets k w1).1 = (subsample df targets k w2).1.
Proof.
  intros Hnp. unfold subsample.
  destruct (groupby_is_target _) as [|decoy_df [|target_df [|]]]; try done.
  case_bool_decide; [|done].
  unfold bind at 1 3.
  match goal with |- context [for_each ?l ?b ?s w1] =>
    destruct (subsample_loop_generator (length decoy_df)
                (length decoy_df / length (unique (adduct ∘ base <$> decoy_df)))%nat
                (length (unique (adduct ∘ base <$> decoy_df))) k l s w1 w2 Hnp)
      as [Hres _];
    destruct (for_each l b s w1) as [r1 w1'], (for_each l b s w2) as [r2 w2']
  end.
  simpl in Hres. subst r2. destruct r1 as [[tdf ddf]|e]; done.
Qed.

Lemma subsample_world df targets k w :
  ∃ g, (subsample df targets k w).2 = set_np_random g w.
Proof.
  destruct (subsample_cases df targets k w)
    as [[_ ->]|[(_ & _ & _ & ->)|(_ & _ & _ & tdf & ddf & g & -> & _)]];
    [exists (np_random w)|exists (np_random w)|exists g]; by destruct w.
Qed.


Lemma seeded_out_of_range self instr charge db_id targets decoys k
    (seed : Z) w :
  seed ≠ 0 → ¬ (0 ≤ seed < 2 ^ 32) →
  load_fdr_subsample self instr charge db_id targets decoys k (Some seed) w
    = (Raise ValueError, w).
Proof.
  intros Hseed Hrange. unfold load_fdr_subsample, seed_if_given.
  destruct seed as [|s|s]; [done| |]; unfold bind at 1, np_random_seed;
    by rewrite bool_decide_eq_false_2.
Qed.

Lemma seeded_in_range self instr charge db_id targets decoys k (seed : Z) w :
  seed ≠ 0 → 0 ≤ seed < 2 ^ 32 →
  load_fdr_subsample self instr charge db_id targets decoys k (Some seed) w
    = (df <- load_patterns self instr charge db_id (targets ++ decoys) ;;
       subsample df targets k) (set_np_random (init_by_seed seed) w).
Proof.
  intros Hseed Hrange. unfold load_fdr_subsample, seed_if_given.
  destruct seed as [|s|s]; [done| |]; unfold bind at 1, np_random_seed;
    by rewrite bool_decide_eq_true_2.
Qed.

Lemma seeded_body self instr charge db_id adducts targets k g w :
  (df <- load_patterns self instr charge db_id adducts ;;
   subsample df targets k) (set_np_random g w) =
  match (load_patterns self instr charge db_id adducts w).1 with
  | Ok df =>
      subsample df targets k
        (set_np_random g (load_patterns self instr charge db_id adducts w).2)
  | Raise e =>
      (Raise e,
       set_np_random g (load_patterns self instr charge db_id adducts w).2)
  end.
Proof.
  unfold bind. rewrite load_patterns_np_random.
  by destruct (load_patterns self instr charge db_id adducts w) as [[df|e] w1].
Qed.

(** C4 as the code has it. With a seed other than 0 the table (or the
    exception) a call produces does not depend on the state the generator
    is in when the call starts, and a second call right after the first
    produces what the first did. *)
Theorem load_fdr_subsample_deterministic self instr charge db_id
    target_adducts decoy_adducts decoys_per_target (seed : Z) w :
  seed ≠ 0 →
  (∀ g, (load_fdr_subsample self instr charge db_id target_adducts
           decoy_adducts decoys_per_target (Some seed)
           (set_np_random g w)).1 =
        (load_fdr_subsample self instr charge db_id target_adducts
           decoy_adducts decoys_per_target (Some seed) w).1) ∧
  (load_fdr_subsample self instr charge db_id target_adducts decoy_adducts
     decoys_per_target (Some seed)
     (load_fdr_subsample self instr charge db_id target_adducts decoy_adducts
        decoys_per_target (Some seed) w).2).1 =
  (load_fdr_subsample self instr charge db_id target_adducts decoy_adducts
     decoys_per_target (Some seed) w).1.
Proof.
  intros Hseed. destruct (decide (0 ≤ seed < 2 ^ 32)) as [Hrange|Hrange].
  2: { split; [intros g|]; by rewrite !seeded_out_of_range. }
  split.
  - intros g. by rewrite !seeded_in_range.
  - rewrite !seeded_in_range by done.
    set (g0 := init_by_seed seed).
    set (adducts := target_adducts ++ decoy_adducts).
    rewrite (seeded_body self instr charge db_id adducts target_adducts
               decoys_per_target g0 w).
    pose proof (load_patterns_again self instr charge db_id adducts w)
      as Hagain.
    destruct (load_patterns self instr charge db_id adducts w)
      as [[df|e] w1]; simpl in *.
    + destruct (subsample_world df target_adducts decoys_per_target
                  (set_np_random g0 w1)) as [g1 ->].
      change (set_np_random g0 (set_np_random g1 (set_np_random g0 w1)))
        with (set_np_random g0 w1).
      rewrite seeded_body, Hagain. by apply subsample_generator.
    + change (set_np_random g0 (set_np_random g0 w1))
        with (set_np_random g0 w1).
      by rewrite seeded_body, Hagain.
Qed.



(** ** The generator *)

Lemma generate_one_eval instr adduct charge x rows w :
  generate_one instr adduct charge x rows w =
  match isotopePattern (x +:+ adduct) with
  | None => (Ok rows, add_log [CallIsotopePattern (x +:+ adduct)] w)
  | Some p =>
      match resolving_power_of instr p with
      | Raise e => (Raise e, add_log [CallIsotopePattern (x +:+ adduct)] w)
      | Ok resolving_power =>
          (Ok (rows ++ [row_of adduct charge x p resolving_power]),
           add_log [CallIsotopePattern (x +:+ adduct);
                    CallInstrumentModel "tof" resolving_power] w)
      end
  end.
Proof.
  unfold generate_one, resolving_power_of, bind, log_call, lift, ret, add_log.
  simpl. destruct (isotopePattern (x +:+ adduct)) as [p|]; [|done].
  destruct (float_of_int (pts_per_mz instr)) as [pts|e]; [|done].
  destruct (truediv 5 pts) as [sigma|e]; [|done].
  destruct (item (masses p) 0) as [m0|e]; [|done].
  destruct (truediv m0 (sigma * SIGMA_TO_FWHM)) as [rp|e]; [|done].
  simpl. by rewrite <- app_assoc.
Qed.

(** The resolving power the code computes is the one of the specification,
    on the double nearest to [pts_per_mz] and the first mass of the pattern
    as the engine returned it. *)
Lemma resolving_power_of_spec instr p resolving_power :
  resolving_power_of instr p = Ok resolving_power →
  ∃ pts m0,
    float_of_int (pts_per_mz instr) = Ok pts ∧
    masses p !! 0%nat = Some m0 ∧
    resolving_power = spec_resolving_power pts m0.
Proof.
  unfold resolving_power_of, spec_resolving_power, truediv, item.
  destruct (float_of_int (pts_per_mz instr)) as [pts|e]; [|done].
  destruct (PrimFloat.eqb pts 0); [done|].
  destruct (masses p !! 0%nat) as [m0|]; [|done].
  destruct (PrimFloat.eqb _ 0); [done|].
  intros [= <-]. by exists pts, m0.
Qed.


Lemma add_log_nil w : add_log [] w = w.
Proof. destruct w. unfold add_log. simpl. by rewrite app_nil_r. Qed.

Lemma add_log_app calls1 calls2 w :
  add_log calls2 (add_log calls1 w) = add_log (calls1 ++ calls2) w.
Proof. unfold add_log. simpl. by rewrite app_assoc. Qed.

(** The loop over the new formulas: it touches the log only, every call it
    logs is as specified, and when it ends without an exception it has
    called [isotopePattern] once for each new formula, in their order, and
    has added one row, as specified, for each formula the engine took. *)
Lemma generate_loop instr ad charge new : ∀ rows w r w',
  for_each new (generate_one instr ad charge) rows w = (r, w') →
  ∃ calls,
    w' = add_log calls w ∧
    Forall (call_as_specified instr ad) calls ∧
    match r with
    | Ok rows' =>
        ∃ added,
          rows' = rows ++ added ∧
          mf <$> added =
            filter (λ x, is_Some (isotopePattern (x +:+ ad))) new ∧
          Forall (row_as_specified instr ad charge) added ∧
          Forall (λ row, adduct row = ad) added ∧
          isotope_calls calls = (λ x, x +:+ ad) <$> new
    | Raise _ => True
    end.
Proof.
  induction new as [|x new IH]; intros rows w r w' Hrun.
  - injection Hrun as <- <-. exists []. rewrite add_log_nil.
    split; [done|]. split; [done|]. exists []. by rewrite app_nil_r.
  - rewrite for_each_cons, generate_one_eval in Hrun.
    destruct (isotopePattern (x +:+ ad)) as [p|] eqn:Hp.
    + destruct (resolving_power_of instr p) as [rp|e] eqn:Hrp.
      * destruct (resolving_power_of_spec _ _ _ Hrp) as (pts & m0 & Hpts & Hm0 & ->).
        assert (Hcall : call_as_specified instr ad
                  (CallInstrumentModel "tof" (spec_resolving_power pts m0))).
        { split; [done|]. by exists x, p, pts, m0. }
        destruct (IH _ _ _ _ Hrun) as (calls & -> & Hcalls & Hres).
        eexists. rewrite add_log_app. split; [done|].
        split.
        { apply Forall_app. split; [|done].
          constructor; [exact I|]. constructor; [exact Hcall|]. constructor. }
        destruct r as [rows'|e]; [|done].
        destruct Hres as (added & -> & Hmf & Hrows & Hadd & Hiso).
        eexists (_ :: added). rewrite <- app_assoc. split; [done|].
        rewrite filter_cons_True by (by rewrite Hp).
        split; [by rewrite fmap_cons, Hmf|].
        split; [|split].
        -- constructor; [|done]. by exists p, pts, m0.
        -- by constructor.
        -- simpl. by rewrite Hiso.
      * injection Hrun as <- <-. eexists. split; [done|].
        split; [|done]. constructor; [exact I|]. constructor.
    + destruct (IH _ _ _ _ Hrun) as (calls & -> & Hcalls & Hres).
      eexists. rewrite add_log_app. split; [done|].
      split.
      { apply Forall_app. split; [|done].
        constructor; [exact I|]. constructor. }
      destruct r as [rows'|e]; [|done].
      destruct Hres as (added & -> & Hmf & Hrows & Hadd & Hiso).
      exists added. split; [done|].
      rewrite filter_cons_False by (rewrite Hp; by intros [? ?]).
      split; [done|]. split; [done|]. split; [done|].
      simpl. by rewrite Hiso.
Qed.





(** [generate_patterns] with its stages spelled out. *)
Lemma generate_patterns_unfold self instr ad charge db_id w :
  generate_patterns self instr ad charge db_id w =
  let dump_path := _path self instr ad charge in
  match read_existing dump_path w with
  | (Raise e, w0) => (Raise e, w0)
  | (Ok existing_df, w0) =>
      match _mf_cache self !! default (-1) db_id with
      | None => (Raise KeyError, w0)
      | Some mol_formulas =>
          match filter (λ x, x ∉ finished existing_df) mol_formulas with
          | [] => (Ok tt, w0)
          | x :: new =>
              match for_each (x :: new) (generate_one instr ad charge) [] w0 with
              | (Raise e, w1) => (Raise e, w1)
              | (Ok df, w1) =>
                  let '(r, fs') :=
                    write_table (merged existing_df df) dump_path (fs w1) in
                  (r, set_fs fs' w1)
              end
          end
      end
  end.
Proof.
  unfold generate_patterns, read_existing, _molecular_formulas, bind, get_fs,
    on_fs, ret, raise. cbn zeta beta iota.
  destruct (path_exists (fs w) (_path self instr ad charge)).
  - destruct (_load _ w) as [[df|e] w0]; [|done].
    destruct (_mf_cache self !! default (-1) db_id) as [mol_formulas|];
      [|done].
    unfold finished.
    destruct (filter _ mol_formulas) as [|x new]; [done|].
    destruct (for_each (x :: new) _ [] w0) as [[rows|e] w1]; [|done].
    by destruct df.
  - destruct (mkdir _ (fs w)) as [[[]|e] fs']; [|done].
    cbn [fst snd]. 
    destruct (_mf_cache self !! default (-1) db_id) as [mol_formulas|];
      [|done].
    unfold finished.
    destruct (filter _ mol_formulas) as [|x new]; [done|].
    by destruct (for_each (x :: new) _ [] _) as [[rows|e] w1].
Qed.


(** *** Directories *)

Lemma mkdir_from_preserves rest : ∀ pre fs0 r fs',
  mkdir_from pre rest fs0 = (r, fs') →
  ∀ q v, fs0 !! q = Some v → fs' !! q = Some v.
Proof.
  induction rest as [|c rest IH]; intros pre fs0 r fs' Hrun q v Hq; simpl in Hrun.
  - by injection Hrun as _ <-.
  - destruct (fs0 !! (pre ++ [c])) as [[rows|]|] eqn:Hp.
    + by injection Hrun as _ <-.
    + by eapply IH.
    + eapply IH; [exact Hrun|]. rewrite lookup_insert_ne; [done|].
      intros <-. congruence.
Qed.





(** A path that is not a directory is read without the cache. *)
Lemma load_file filename w :
  is_dir (fs w) filename = false →
  _load filename w = (read_table (fs w) filename, w).
Proof.
  intros Hdir. unfold _load, bind, get_fs, _load_single_file, lift. simpl.
  by rewrite Hdir.
Qed.



Lemma load_world filename w :
  fs (_load filename w).2 = fs w ∧
  np_random (_load filename w).2 = np_random w ∧
  engine_log (_load filename w).2 = engine_log w.
Proof.
  unfold _load, bind, get_fs, _load_dir, _load_single_file, lift. simpl.
  destruct (is_dir (fs w) filename); [|done].
  destruct (cache_find filename (lru w)); [done|].
  by destruct (read_dir (fs w) filename).
Qed.















End Properties.

(** * The properties on the toy run *)

(** Settles a decidable statement about concrete data by running its
    decision procedure. *)
Ltac by_computation :=
  match goal with
  | |- ?P => refine (@bool_decide_unpack P _ _); vm_compute; exact I
  end.

Section ToyProperties.
#[local] Existing Instances toy_engine toy_rng toy_config.

(** Databases [{A,B}] and [{B,C}] give the sentinel set [{A,B,C}]. *)
Lemma all_databases_is_union_example :
  ∃ all_mfs : list string,
    _mf_cache toy_self !! (-1) = Some all_mfs ∧
    list_to_set all_mfs =@{gset string} {[ "A"; "B"; "C" ]}.
Proof.
  destruct (all_databases_is_union toy_databases ["data"] toy_world
              toy_world_init toy_self) as (all_mfs & Hsome & Hall & _).
  - vm_compute. reflexivity.
  - exists all_mfs. split; [exact Hsome|].
    rewrite Hall. vm_compute. reflexivity.
Defined.



(** With three decoy adducts, two decoys per target and the target [+H],
    each of the formulas [A] and [B] has two of its three decoy rows true
    under [+H] in the table returned. *)
Lemma decoy_count_example :
  ∃ out w',
    load_fdr_subsample toy_self toy_instrument 1 (Some 1) toy_targets
      toy_decoys 2 (Some 42) toy_world_full = (Ok out, w') ∧
    ∀ f, f ∈ toy_formulas →
      length (filter (λ r, mf (base r) = f ∧ selected r !! "+H" = Some true)
                     out) = 2%nat.
Proof.
  assert (Hload : (load_patterns toy_self toy_instrument 1 (Some 1)
                     (toy_targets ++ toy_decoys) toy_world_full).1
                  = Ok toy_table) by (vm_compute; reflexivity).
  assert (Hgrouped : grouped_by_formula (decoy_rows toy_targets toy_table)
                       toy_formulas toy_groups).
  { unfold grouped_by_formula, toy_formulas, toy_groups.
    split; [vm_compute; reflexivity|].
    split; [by_computation|].
    repeat (apply Forall2_cons; [split; [|split]|]); try apply Forall2_nil;
      try (vm_compute; reflexivity); by_computation. }
  assert (Hk : (2 ≤ length (unique (adduct <$> decoy_rows toy_targets toy_table)))%nat)
    by (vm_compute; lia).
  destruct (load_fdr_subsample_decoy_count toy_self toy_instrument 1 (Some 1)
              toy_targets toy_decoys 2 (Some 42) toy_world_full
              toy_table toy_formulas toy_groups Hload Hgrouped Hk)
    as [Hreturns Hcount].
  destruct Hreturns as (out & w' & Hrun).
  - by_computation.
  - vm_compute. intros [=].
  - vm_compute. intros [=].
  - exists out, w'. split; [exact Hrun|]. intros f Hf.
    apply (Hcount out w' Hrun "+H" f); [left|exact Hf].
Defined.

(** The coverage of the subsample under the seed 42. *)
Lemma coverage_example :
  Forall (λ r,
    (adduct (base r) ∉ toy_targets →
       ∃ t, t ∈ toy_targets ∧ selected r !! t = Some true) ∧
    (adduct (base r) ∈ toy_targets →
       ∀ t, t ∈ toy_targets → selected r !! t = Some false)) toy_out.
Proof.
  apply Forall_forall.
  apply (load_fdr_subsample_coverage toy_self toy_instrument 1 (Some 1)
           toy_targets toy_decoys 2 (Some 42) toy_world_full
           toy_out toy_call.2).
  apply (run_eta toy_call []). vm_compute. reflexivity.
Defined.

(** No partition of the adduct [+X] exists, so a subsample with [+X] as the
    only target adduct loads decoy rows only, and raises. *)
Lemma one_class_example :
  ∃ e, (load_fdr_subsample toy_self toy_instrument 1 (Some 1) ["+X"]
          toy_decoys 2 (Some 42) toy_world_full).1 = Raise e.
Proof.
  apply load_fdr_subsample_one_class.
  intros df Hdf. vm_compute in Hdf. injection Hdf as <-.
  right. by_computation.
Defined.

(** C6 fails as stated: database 7 is unknown to the toy storage, the
    partition directory of the query is on disk, and the query raises a
    [KeyError] where the claim has it return no rows. *)
Lemma load_patterns_unknown_database_raises :
  _mf_cache toy_self !! 7 = None ∧
  is_dir (fs toy_world_full) (_dir_path toy_self toy_instrument 1) = true ∧
  (load_patterns toy_self toy_instrument 1 (Some 7) [] toy_world_full).1
    = Raise KeyError ∧
  (load_patterns toy_self toy_instrument 1 (Some 7) [] toy_world_full).1
    ≠ Ok [].
Proof.
  vm_compute. repeat split; try reflexivity. intros [=].
Qed.

Lemma load_patterns_unknown_database_example :
  ∃ e, (load_patterns toy_self toy_instrument 1 (Some 7) []
          toy_world_full).1 = Raise e ∧
       (is_ok (_load (_dir_path toy_self toy_instrument 1)
                 toy_world_full).1 = true → e = KeyError).
Proof.
  apply load_patterns_unknown_database.
  - lia.
  - vm_compute. reflexivity.
Defined.


(** C4 fails as stated: 0 is a seed that is not null, and two calls in a row
    under it return different tables, since [if random_seed:] skips the
    seeding and the second call goes on from where the first left the
    generator. *)
Lemma seed_zero_not_deterministic :
  (toy_call_unseeded (toy_call_unseeded toy_world_full).2).1 ≠
  (toy_call_unseeded toy_world_full).1.
Proof.
  intros Heq. apply (f_equal rows_of) in Heq. vm_compute in Heq.
  discriminate Heq.
Qed.

Lemma deterministic_example :
  (∀ g, (load_fdr_subsample toy_self toy_instrument 1 (Some 1) toy_targets
           toy_decoys 2 (Some 42) (set_np_random g toy_world_full)).1 =
        (load_fdr_subsample toy_self toy_instrument 1 (Some 1) toy_targets
           toy_decoys 2 (Some 42) toy_world_full).1) ∧
  (load_fdr_subsample toy_self toy_instrument 1 (Some 1) toy_targets
     toy_decoys 2 (Some 42)
     (load_fdr_subsample toy_self toy_instrument 1 (Some 1) toy_targets
        toy_decoys 2 (Some 42) toy_world_full).2).1 =
  (load_fdr_subsample toy_self toy_instrument 1 (Some 1) toy_targets
     toy_decoys 2 (Some 42) toy_world_full).1.
Proof.
  refine (load_fdr_subsample_deterministic toy_self toy_instrument 1 (Some 1)
            toy_targets toy_decoys 2 42 toy_world_full _).
  lia.
Defined.




(** The resolving power for 2019 points per m/z and a first mass of 12. *)
Example resolving_power_2019 :
  spec_resolving_power 2019 12 = 2057.7368577378124%float.
Proof. vm_compute. reflexivity. Qed.




End ToyProperties.

(** * Further properties of the module

    What the functions around the claims do: the formula sets and the
    construction, paths, loading and the cache, the subsample and the
    generator at their edges, batches, the handlers and the configuration
    index. *)

Section Further.
Context {engine : Engine} {rng : Rng} {config : Config}.

(** ** The formula sets *)

Lemma molecularFormulaSets_snoc q sf db_id :
  molecularFormulaSets (q ++ [(sf, db_id)]) =
  <[db_id := default ∅ (molecularFormulaSets q !! db_id) ∪ {[sf]}]>
    (molecularFormulaSets q).
Proof. unfold molecularFormulaSets. by rewrite foldl_app. Qed.

(** [molecularFormulaSets] groups the rows of its query by database: a
    formula is in the set of a database exactly when the query has the row
    of the two, and no database gets an empty set. *)
Theorem molecularFormulaSets_groups (q : list (string * Z)) :
  (∀ sf db_id,
     (∃ mfs, molecularFormulaSets q !! db_id = Some mfs ∧ sf ∈ mfs) ↔
     (sf, db_id) ∈ q) ∧
  (∀ db_id mfs, molecularFormulaSets q !! db_id = Some mfs → mfs ≠ ∅).
Proof.
  induction q as [|[sf0 db0] q [IHin IHne]] using rev_ind.
  - change (molecularFormulaSets []) with (∅ : gmap Z (gset string)). split.
    + intros sf db_id. split.
      * intros (mfs & Hlook & _). by rewrite lookup_empty in Hlook.
      * intros Hin. by apply elem_of_nil in Hin.
    + intros db_id mfs Hlook. by rewrite lookup_empty in Hlook.
  - rewrite molecularFormulaSets_snoc. split.
    + intros sf db_id. rewrite elem_of_app, list_elem_of_singleton.
      destruct (decide (db_id = db0)) as [->|Hne].
      * rewrite lookup_insert_eq. split.
        -- intros (mfs & [= <-] & Hsf).
           apply elem_of_union in Hsf as [Hsf|Hsf].
           ++ left. apply IHin.
              destruct (molecularFormulaSets q !! db0) as [mfs|];
                [by exists mfs | set_solver].
           ++ right. apply elem_of_singleton in Hsf. by subst.
        -- intros [Hin|[= ->]].
           ++ apply IHin in Hin as (mfs & Hlook & Hsf). rewrite Hlook.
              eexists. split; [done|]. simpl. set_solver.
           ++ eexists. split; [done|]. set_solver.
      * rewrite lookup_insert_ne by done. rewrite IHin. split; [by left|].
        intros [Hin|[= _ ->]]; done.
    + intros db_id mfs. destruct (decide (db_id = db0)) as [->|Hne].
      * rewrite lookup_insert_eq. intros [= <-]. set_solver.
      * rewrite lookup_insert_ne by done. apply IHne.
Qed.

(** ** Construction, again *)

Lemma add_database_fold_other (l : list (Z * gset string)) : ∀ acc k,
  k ∉ l.*1 → (foldl add_database acc l).2 !! k = acc.2 !! k.
Proof.
  induction l as [|[k0 s0] l IH]; intros acc k Hk; [done|].
  apply not_elem_of_cons in Hk as [Hne Hk]. simpl in *.
  rewrite IH by done. simpl. by rewrite lookup_insert_ne.
Qed.

Lemma add_database_fold_lookup (l : list (Z * gset string)) : ∀ acc k s,
  NoDup l.*1 → (k, s) ∈ l →
  (foldl add_database acc l).2 !! k = Some (elements s).
Proof.
  induction l as [|[k0 s0] l IH]; intros acc k s Hnodup Hin.
  - by apply elem_of_nil in Hin.
  - apply NoDup_cons in Hnodup as [Hk0 Hnodup].
    apply elem_of_cons in Hin as [[= -> ->]|Hin]; simpl.
    + rewrite add_database_fold_other by done. simpl.
      by rewrite lookup_insert_eq.
    + by apply IH.
Qed.

(** The cache the constructor leaves: the sentinel entry over the entries
    of the databases. *)
Lemma init_cache mol_formulas directory w self w' :
  __init__ mol_formulas directory w = (Ok self, w') →
  _dir self = directory ∧
  ∀ db_id, db_id ≠ -1 →
    _mf_cache self !! db_id = elements <$> mol_formulas !! db_id.
Proof.
  unfold __init__, bind, on_fs, ret. intros Hinit.
  destruct (mkdir directory (fs w)) as [[[]|e] fs']; [|discriminate].
  pose proof (add_database_fold_lookup (map_to_list mol_formulas) (∅, ∅))
    as Hin.
  pose proof (add_database_fold_other (map_to_list mol_formulas) (∅, ∅))
    as Hout.
  destruct (foldl add_database (∅, ∅) (map_to_list mol_formulas))
    as [all_mfs mf_cache].
  injection Hinit as <- _. simpl in *. split; [done|].
  intros db_id Hne. rewrite lookup_insert_ne by done.
  destruct (mol_formulas !! db_id) as [mfs|] eqn:Hdb; simpl.
  - apply Hin; [apply NoDup_fst_map_to_list|by apply elem_of_map_to_list].
  - rewrite Hout, lookup_empty; [done|].
    intros ([k s] & -> & Hks)%list_elem_of_fmap.
    apply elem_of_map_to_list in Hks. simpl in *. congruence.
Qed.

(** Construction and lookup.  Under every id but the sentinel [-1],
    [_molecular_formulas] gives the formulas of the database the dictionary
    has under that id, each of them once, and raises a [KeyError] when the
    dictionary has no such database. *)
Theorem molecular_formulas_of_database mol_formulas directory w self w'
    (db_id : Z) w0 :
  __init__ mol_formulas directory w = (Ok self, w') →
  db_id ≠ -1 →
  match mol_formulas !! db_id with
  | Some mfs =>
      ∃ df, _molecular_formulas self (Some db_id) w0 = (Ok df, w0) ∧
            NoDup df ∧ list_to_set df = mfs
  | None => _molecular_formulas self (Some db_id) w0 = (Raise KeyError, w0)
  end.
Proof.
  intros Hinit Hne. destruct (init_cache _ _ _ _ _ Hinit) as [_ Hcache].
  unfold _molecular_formulas. simpl. rewrite (Hcache db_id Hne).
  destruct (mol_formulas !! db_id) as [mfs|]; simpl; [|done].
  exists (elements mfs). split; [done|]. split; [apply NoDup_elements|].
  apply leibniz_equiv, list_to_set_elements.
Qed.

(** ** Directories, again *)

Lemma mkdir_from_spec rest : ∀ pre fs0 r fs',
  mkdir_from pre rest fs0 = (r, fs') →
  (∀ q, fs0 !! q = None →
     fs' !! q = None ∨
     (fs' !! q = Some NDir ∧
      ∃ k, k ≠ [] ∧ k `prefix_of` rest ∧ q = pre ++ k)) ∧
  match r with
  | Ok _ => ∀ k, k ≠ [] → k `prefix_of` rest → fs' !! (pre ++ k) = Some NDir
  | Raise e =>
      e = OSError ∧
      ∃ k rows, k ≠ [] ∧ k `prefix_of` rest ∧
                fs0 !! (pre ++ k) = Some (NFile rows)
  end.
Proof.
  induction rest as [|c rest IH]; intros pre fs0 r fs' Hrun.
  - simpl in Hrun. injection Hrun as <- <-. split; [by left|].
    intros k Hk [k' Hk']. by destruct k.
  - pose proof Hrun as Hrun0. simpl in Hrun.
    destruct (fs0 !! (pre ++ [c])) as [[rows|]|] eqn:Hp.
    + injection Hrun as <- <-. split; [by left|]. split; [done|].
      exists [c], rows. split; [done|]. split; [|done].
      by exists rest.
    + destruct (IH _ _ _ _ Hrun) as [Hnew Hres]. split.
      * intros q Hq. destruct (Hnew q Hq) as [?|(Hdir & k & Hk & Hpre & ->)];
          [by left|].
        right. split; [done|]. exists (c :: k). split; [done|].
        split; [by apply prefix_cons|]. by rewrite <- app_assoc.
      * destruct r as [[]|e].
        -- intros k Hk [k' Hk']. destruct k as [|c' k]; [done|].
           injection Hk' as <- ->. destruct k as [|c'' k].
           ++ by apply (mkdir_from_preserves _ _ _ _ _ Hrun _ _ Hp).
           ++ rewrite (cons_middle c), app_assoc. apply Hres; [done|].
              by eexists.
        -- destruct Hres as (-> & k & rows & Hk & Hpre & Hfile).
           split; [done|]. exists (c :: k), rows. split; [done|].
           split; [by apply prefix_cons|]. by rewrite <- app_assoc in Hfile.
    + destruct (IH _ _ _ _ Hrun) as [Hnew Hres]. split.
      * intros q Hq. destruct (decide (q = pre ++ [c])) as [->|Hne].
        -- right. split.
           ++ apply (mkdir_from_preserves _ _ _ _ _ Hrun).
              apply lookup_insert_eq.
           ++ exists [c]. split; [done|]. split; [|done]. by exists rest.
        -- destruct (Hnew q) as [?|(Hdir & k & Hk & Hpre & ->)];
             [by rewrite lookup_insert_ne|by left|].
           right. split; [done|]. exists (c :: k). split; [done|].
           split; [by apply prefix_cons|]. by rewrite <- app_assoc.
      * destruct r as [[]|e].
        -- intros k Hk [k' Hk']. destruct k as [|c' k]; [done|].
           injection Hk' as <- ->. destruct k as [|c'' k].
           ++ apply (mkdir_from_preserves _ _ _ _ _ Hrun).
              apply lookup_insert_eq.
           ++ rewrite (cons_middle c), app_assoc. apply Hres; [done|].
              by eexists.
        -- destruct Hres as (-> & k & rows & Hk & Hpre & Hfile).
           split; [done|]. exists (c :: k), rows. split; [done|].
           split; [by apply prefix_cons|]. rewrite <- app_assoc in Hfile.
           rewrite lookup_insert_ne in Hfile; [done|].
           intros Heq. rewrite <- Heq, lookup_insert_eq in Hfile. done.
Qed.

(** What the constructor does to the store: it makes the directory and the
    ancestors that are missing and changes nothing else, no entry of the
    file system, the cache, the generator or the log; it fails, with an
    [OSError], exactly on a path that leads through a file. *)
Theorem init_makes_directory mol_formulas directory w r w' :
  __init__ mol_formulas directory w = (r, w') →
  lru w' = lru w ∧ np_random w' = np_random w ∧
  engine_log w' = engine_log w ∧
  (∀ q v, fs w !! q = Some v → fs w' !! q = Some v) ∧
  (∀ q, fs w !! q = None →
     fs w' !! q = None ∨
     (fs w' !! q = Some NDir ∧ q `prefix_of` directory)) ∧
  match r with
  | Ok self =>
      _dir self = directory ∧
      ∀ q, q ≠ [] → q `prefix_of` directory → is_dir (fs w') q = true
  | Raise e =>
      e = OSError ∧
      ∃ q rows, q `prefix_of` directory ∧ fs w !! q = Some (NFile rows)
  end.
Proof.
  unfold __init__, bind, on_fs, ret, mkdir. intros Hinit.
  destruct (mkdir_from [] directory (fs w)) as [r0 fs'] eqn:Hmkdir.
  pose proof (mkdir_from_preserves _ _ _ _ _ Hmkdir) as Hkeep.
  destruct (mkdir_from_spec _ _ _ _ _ Hmkdir) as [Hnew Hres].
  assert (Hnew' : ∀ q, fs w !! q = None →
            fs' !! q = None ∨ (fs' !! q = Some NDir ∧ q `prefix_of` directory)).
  { intros q Hq. destruct (Hnew q Hq) as [?|(Hdir & k & _ & Hk & ->)];
      [by left|by right]. }
  destruct r0 as [[]|e].
  - destruct (foldl add_database (∅, ∅) (map_to_list mol_formulas))
      as [all_mfs mf_cache].
    injection Hinit as <- <-. simpl. repeat (split; [done|]).
    intros q Hq Hpre. unfold is_dir. specialize (Hres q Hq Hpre).
    simpl in Hres. by rewrite Hres.
  - injection Hinit as <- <-. simpl. repeat (split; [done|]).
    destruct Hres as (-> & k & rows & _ & Hk & Hfile). split; [done|].
    by exists k, rows.
Qed.

(** ** Paths *)

Lemma string_length_app (s t : string) :
  String.length (s +:+ t) = (String.length s + String.length t)%nat.
Proof. induction s as [|c s IH]; simpl; [done|]. by rewrite IH. Qed.

Lemma string_app_inv_tail (s s' t : string) : s +:+ t = s' +:+ t → s = s'.
Proof.
  revert s'. induction s as [|c s IH]; intros [|c' s'] Heq; simpl in *.
  - done.
  - apply (f_equal String.length) in Heq. simpl in Heq.
    rewrite !string_length_app in Heq. simpl in Heq. lia.
  - apply (f_equal String.length) in Heq. simpl in Heq.
    rewrite !string_length_app in Heq. simpl in Heq. lia.
  - injection Heq as -> Heq. f_equal. by apply IH.
Qed.

(** The file of a configuration lies in the directory of its instrument
    setting and charge, below the directory of the storage, and two
    configurations that differ in the points per m/z, the adduct or the
    charge have different files. *)
Theorem paths_of_configurations self instr ad charge :
  parent (_path self instr ad charge) = _dir_path self instr charge ∧
  _dir self `prefix_of` _dir_path self instr charge ∧
  ∀ instr' ad' charge',
    _path self instr ad charge = _path self instr' ad' charge' →
    pts_per_mz instr = pts_per_mz instr' ∧ ad = ad' ∧ charge = charge'.
Proof.
  unfold _path, _dir_path, parent. split; [apply removelast_last|].
  split; [by eexists|].
  intros instr' ad' charge' Heq.
  rewrite <- !app_assoc in Heq. apply app_inv_head in Heq. simpl in Heq.
  injection Heq as Hpts Hcharge Had.
  change (pretty (pts_per_mz instr) = pretty (pts_per_mz instr')) in Hpts.
  change (pretty charge = pretty charge') in Hcharge.
  apply (inj pretty) in Hpts. apply (inj pretty) in Hcharge.
  split; [done|]. split; [|done].
  apply (string_app_inv_tail ad ad' ".parquet"). exact Had.
Qed.

(** ** Joins *)

Lemma elem_of_unique {A} `{EqDecision A} (x : A) (l : list A) :
  x ∈ unique l ↔ x ∈ l.
Proof.
  induction l as [|y l IH]; simpl; [done|].
  rewrite !elem_of_cons, list_elem_of_filter, IH.
  destruct (decide (x = y)); naive_solver.
Qed.

Lemma NoDup_unique {A} `{EqDecision A} (l : list A) : NoDup (unique l).
Proof.
  induction l as [|y l IH]; simpl; [constructor|].
  apply NoDup_cons. split.
  - rewrite list_elem_of_filter. naive_solver.
  - by apply NoDup_filter.
Qed.

Lemma filter_disjoint_or {A} (P Q : A → Prop) `{!∀ x, Decision (P x)}
    `{!∀ x, Decision (Q x)} (l : list A) :
  (∀ x, P x → Q x → False) →
  filter (λ x, P x ∨ Q x) l ≡ₚ filter P l ++ filter Q l.
Proof.
  intros Hdisj. induction l as [|x l IH]; [done|].
  rewrite !filter_cons.
  destruct (decide (P x)) as [HP|HP], (decide (Q x)) as [HQ|HQ].
  - by destruct (Hdisj x).
  - rewrite decide_True by auto. simpl. by rewrite IH.
  - rewrite decide_True by auto. rewrite IH.
    by rewrite Permutation_middle.
  - rewrite decide_False by tauto. done.
Qed.

Lemma filter_all {A} (P : A → Prop) `{!∀ x, Decision (P x)} (l : list A) :
  Forall P l → filter P l = l.
Proof.
  induction 1 as [|x l HP _ IH]; [done|].
  by rewrite filter_cons, decide_True, IH.
Qed.

(** Rows put together key by key are the rows whose key is asked for. *)
Lemma grouped_by_key {K} `{EqDecision K} (key : pattern_row → K)
    (right : list K) (df : table) (ks : list K) :
  NoDup ks →
  flat_map (λ k, if decide (k ∈ right)
                 then filter (λ r, key r = k) df else []) ks
  ≡ₚ filter (λ r, key r ∈ ks ∧ key r ∈ right) df.
Proof.
  induction ks as [|k ks IH]; intros Hnodup; simpl.
  - rewrite (filter_none (λ r, key r ∈ [] ∧ key r ∈ right)); [done|].
    apply Forall_forall. intros r _ [Hin _]. by apply elem_of_nil in Hin.
  - apply NoDup_cons in Hnodup as [Hk Hnodup]. rewrite IH by done.
    assert (Hfirst : (if decide (k ∈ right)
                      then filter (λ r, key r = k) df else [])
                     = filter (λ r, key r = k ∧ k ∈ right) df).
    { destruct (decide (k ∈ right)) as [Hin|Hout].
      - apply filter_ext_in. intros r _. tauto.
      - symmetry. apply filter_none, Forall_forall. intros r _ [_ ?]. done. }
    rewrite Hfirst.
    rewrite <- (filter_disjoint_or (λ r, key r = k ∧ k ∈ right)
                  (λ r, key r ∈ ks ∧ key r ∈ right)).
    2: { intros r [-> _] [Hin _]. done. }
    erewrite filter_ext_in; [done|].
    intros r _. simpl. rewrite elem_of_cons. split.
    + intros [[-> ?]|[? ?]]; auto.
    + intros [[->|?] ?]; auto.
Qed.

Lemma elem_of_pd_merge {K} `{EqDecision K} (key : pattern_row → K)
    (df : table) (right : list K) (r : pattern_row) :
  r ∈ pd_merge key df right ↔ r ∈ df ∧ key r ∈ right.
Proof.
  unfold pd_merge. rewrite list_elem_of_In, in_flat_map. split.
  - intros (k & _ & Hr). apply in_flat_map in Hr as (r0 & Hr0 & Hr).
    apply list_elem_of_In, list_elem_of_filter in Hr0 as [Hkey Hr0].
    apply list_elem_of_In, elem_of_replicate in Hr as [-> Hn].
    split; [done|]. rewrite Hkey.
    destruct (filter (λ k', k' = k) right) as [|k' ?] eqn:Hf; [done|].
    assert (Hk' : k' ∈ filter (λ k', k' = k) right) by (rewrite Hf; left).
    by apply list_elem_of_filter in Hk' as [-> ?].
  - intros [Hr Hkey]. exists (key r). split.
    + apply list_elem_of_In, elem_of_unique, list_elem_of_fmap. by exists r.
    + apply in_flat_map. exists r. split.
      * by apply list_elem_of_In, list_elem_of_filter.
      * apply list_elem_of_In, elem_of_replicate. split; [done|].
        assert (Hin : key r ∈ filter (λ k', k' = key r) right)
          by by apply list_elem_of_filter.
        intros Hlen%nil_length_inv. rewrite Hlen in Hin.
        by apply elem_of_nil in Hin.
Qed.

Lemma count_NoDup {K} `{EqDecision K} (k : K) (right : list K) :
  NoDup right →
  length (filter (λ k', k' = k) right) = if decide (k ∈ right) then 1%nat else 0%nat.
Proof.
  induction right as [|k0 right IH]; intros Hnodup; [done|].
  apply NoDup_cons in Hnodup as [Hk0 Hnodup]. rewrite filter_cons.
  destruct (decide (k0 = k)) as [->|Hne]; simpl.
  - rewrite decide_True by left. rewrite IH by done.
    by rewrite decide_False.
  - rewrite IH by done. destruct (decide (k ∈ right)).
    + rewrite decide_True; [done|by right].
    + rewrite decide_False; [done|]. by intros [->|?]%elem_of_cons.
Qed.

Lemma pd_merge_perm {K} `{EqDecision K} (key : pattern_row → K)
    (df : table) (right : list K) :
  NoDup right →
  pd_merge key df right ≡ₚ filter (λ r, key r ∈ right) df.
Proof.
  intros Hnodup. unfold pd_merge.
  assert (Hinner : ∀ k,
    flat_map (λ r, replicate (length (filter (λ k', k' = k) right)) r)
             (filter (λ r, key r = k) df)
    = if decide (k ∈ right) then filter (λ r, key r = k) df else []).
  { intros k. rewrite count_NoDup by done.
    destruct (decide (k ∈ right)).
    - induction (filter _ df) as [|r l IH]; simpl in *; congruence.
    - induction (filter _ df) as [|r l IH]; simpl in *; congruence. }
  erewrite flat_map_ext; [|exact Hinner].
  rewrite grouped_by_key by apply NoDup_unique.
  erewrite filter_ext_in; [done|].
  intros r Hr. simpl. split; [tauto|]. intros Hkey. split; [|done].
  apply elem_of_unique, list_elem_of_fmap. by exists r.
Qed.

(** What [load_patterns] selects from the table of the partition
    directory.  Without a database, or with the id 0, the rows it returns
    are the rows of an adduct asked for, all rows when no adduct is asked
    for.  With a database the storage knows they are, of these, the rows
    whose formula is in the database; and when no adduct is listed twice
    and no formula is entered twice, the result has each of these rows
    exactly as often as the directory has it. *)
Theorem load_patterns_selects self instr charge adducts w df w1 :
  _load (_dir_path self instr charge) w = (Ok df, w1) →
  let asked := λ r, adducts = [] ∨ adduct r ∈ adducts in
  (∀ db_id, db_id = None ∨ db_id = Some 0 →
     ∃ out, load_patterns self instr charge db_id adducts w = (Ok out, w1) ∧
            (∀ r, r ∈ out ↔ r ∈ df ∧ asked r) ∧
            (NoDup adducts → out ≡ₚ filter asked df)) ∧
  (∀ db_id mfs, db_id ≠ 0 → _mf_cache self !! db_id = Some mfs →
     ∃ out, load_patterns self instr charge (Some db_id) adducts w
              = (Ok out, w1) ∧
            (∀ r, r ∈ out ↔ r ∈ df ∧ asked r ∧ mf r ∈ mfs) ∧
            (NoDup adducts → NoDup mfs →
             out ≡ₚ filter (λ r, asked r ∧ mf r ∈ mfs) df)).
Proof.
  intros Hload asked.
  set (df1 := match adducts with [] => df | _ => pd_merge adduct df adducts end).
  assert (Hin : ∀ r, r ∈ df1 ↔ r ∈ df ∧ asked r).
  { intros r. unfold df1, asked. destruct adducts as [|a adducts].
    - naive_solver.
    - rewrite elem_of_pd_merge. naive_solver. }
  assert (Hperm : NoDup adducts → df1 ≡ₚ filter asked df).
  { intros Hnodup. unfold df1, asked. destruct adducts as [|a adducts].
    - rewrite filter_all; [done|]. apply Forall_forall. intros r _. by left.
    - rewrite pd_merge_perm by done. erewrite filter_ext_in; [done|].
      intros r _. simpl. naive_solver. }
  split.
  - intros db_id Hdb. exists df1. split; [|done].
    unfold load_patterns, bind. rewrite Hload. fold df1.
    by destruct Hdb as [-> | ->].
  - intros db_id mfs Hne Hmfs. exists (pd_merge mf df1 mfs). split; [|split].
    + unfold load_patterns, bind. rewrite Hload. fold df1.
      unfold _molecular_formulas, ret. simpl. rewrite Hmfs.
      by destruct db_id.
    + intros r. rewrite elem_of_pd_merge, Hin. tauto.
    + intros Hnodup Hmf. rewrite pd_merge_perm by done.
      rewrite (Hperm Hnodup), list_filter_filter.
      erewrite filter_ext_in; [done|]. intros r _. simpl. tauto.
Qed.

(** ** Loading *)

Lemma load_patterns_empty self instr charge db_id adducts w :
  iterdir (fs w) (_dir_path self instr charge) = Ok [] →
  cache_find (_dir_path self instr charge) (lru w) = None →
  load_patterns self instr charge db_id adducts w = (Raise ValueError, w).
Proof.
  unfold load_patterns. generalize (_dir_path self instr charge) as d.
  intros d Hchildren Hmiss. cbv zeta. apply bind_raise.
  assert (Hdir : is_dir (fs w) d = true).
  { unfold iterdir in Hchildren. by destruct (is_dir (fs w) d). }
  unfold _load, bind, get_fs, _load_dir, read_dir. cbv beta iota.
  by rewrite Hdir, Hmiss, Hchildren.
Qed.

(** [load_patterns] on a partition directory that is not there raises an
    [OSError], and on one that has no file in it, and is not in the cache,
    a [ValueError]; either way it leaves the store as it was. *)
Theorem load_patterns_no_files self instr charge db_id adducts w :
  (fs w !! _dir_path self instr charge = None →
   load_patterns self instr charge db_id adducts w = (Raise OSError, w)) ∧
  (iterdir (fs w) (_dir_path self instr charge) = Ok [] →
   cache_find (_dir_path self instr charge) (lru w) = None →
   load_patterns self instr charge db_id adducts w = (Raise ValueError, w)).
Proof.
  split; [|apply load_patterns_empty].
  intros Hnone. apply bind_raise. rewrite load_file.
  - unfold read_table. by rewrite Hnone.
  - unfold is_dir. by rewrite Hnone.
Qed.

(** ** The directory cache *)

Lemma cache_find_fst d c : cache_find d c = None ↔ d ∉ c.*1.
Proof.
  induction c as [|[d' df] c IH]; simpl.
  - split; [intros _ Hin; by apply elem_of_nil in Hin|done].
  - rewrite not_elem_of_cons. destruct (decide (d' = d)) as [->|Hne].
    + split; [done|]. by intros [? _].
    + rewrite IH. naive_solver.
Qed.

Lemma cache_remove_fst d c : (cache_remove d c).*1 = filter (λ d', d' ≠ d) c.*1.
Proof.
  unfold cache_remove. induction c as [|[d' df] c IH]; [done|].
  rewrite fmap_cons, !filter_cons. simpl.
  destruct (decide (d' ≠ d)); simpl; [f_equal|]; exact IH.
Qed.

Lemma cache_remove_length d c :
  d ∈ c.*1 → (length (cache_remove d c) < length c)%nat.
Proof.
  unfold cache_remove. induction c as [|[d' df] c IH]; intros Hin.
  - by apply elem_of_nil in Hin.
  - rewrite filter_cons. simpl.
    destruct (decide (d' ≠ d)) as [Hne|Heq]; simpl.
    + apply elem_of_cons in Hin as [->|Hin]; [done|].
      specialize (IH Hin). lia.
    + pose proof (length_filter (λ e : path * table, e.1 ≠ d) c). lia.
Qed.

Lemma load_dir_cache_ok directory w :
  cache_ok (lru w) → cache_ok (lru (_load_dir directory w).2).
Proof.
  unfold cache_ok, _load_dir. intros [Hnodup Hbound].
  destruct (cache_find directory (lru w)) as [df|] eqn:Hfind; simpl.
  - assert (Hin : directory ∈ (lru w).*1).
    { destruct (decide (directory ∈ (lru w).*1)) as [|Hout]; [done|].
      apply cache_find_fst in Hout. congruence. }
    split.
    + rewrite cache_remove_fst. apply NoDup_cons. split.
      * rewrite list_elem_of_filter. naive_solver.
      * by apply NoDup_filter.
    + pose proof (cache_remove_length _ _ Hin).
      destruct ISOTOPE_CACHE_SIZE; [lia|done].
  - apply cache_find_fst in Hfind.
    destruct (read_dir (fs w) directory) as [df|e]; simpl; [|done].
    unfold cache_bound. destruct ISOTOPE_CACHE_SIZE as [n|].
    + split.
      * rewrite fmap_take. apply (sublist_NoDup _ ((directory, df) :: lru w).*1).
        -- rewrite fmap_cons. by apply NoDup_cons.
        -- apply sublist_take.
      * rewrite length_take. lia.
    + split; [|done]. rewrite fmap_cons. by apply NoDup_cons.
Qed.

Lemma load_cache_ok filename w :
  cache_ok (lru w) → cache_ok (lru (_load filename w).2).
Proof.
  intros Hok. unfold _load, bind, get_fs, _load_single_file, lift. simpl.
  destruct (is_dir (fs w) filename); [by apply load_dir_cache_ok|done].
Qed.

Lemma load_fdr_subsample_world self instr charge db_id targets decoys k
    seed w :
  (load_fdr_subsample self instr charge db_id targets decoys k seed w).2 = w ∨
  ∃ g, (load_fdr_subsample self instr charge db_id targets decoys k seed w).2
       = set_np_random g (_load (_dir_path self instr charge) w).2.
Proof.
  unfold load_fdr_subsample.
  destruct (seed_if_given_spec seed w) as [[e Hseed]|[g Hseed]].
  { left. by rewrite (bind_raise _ _ _ _ _ Hseed). }
  right. rewrite (bind_ok _ _ _ _ _ Hseed).
  unfold bind. rewrite load_patterns_np_random.
  rewrite <- load_patterns_world with (db_id := db_id)
                                      (adducts := targets ++ decoys).
  destruct (load_patterns self instr charge db_id _ w) as [[df|e] w1];
    simpl; [|by exists g].
  destruct (subsample_world df targets k (set_np_random g w1)) as [g' ->].
  by exists g'.
Qed.

Lemma read_existing_lru dump_path w :
  lru (read_existing dump_path w).2 = lru w ∨
  lru (read_existing dump_path w).2 = lru (_load dump_path w).2.
Proof.
  unfold read_existing. destruct (path_exists (fs w) dump_path).
  - right. by destruct (_load dump_path w) as [[df|e] w0].
  - left. by destruct (mkdir _ (fs w)) as [[[]|e] fs'].
Qed.

Lemma generate_patterns_lru self instr ad charge db_id w :
  lru (generate_patterns self instr ad charge db_id w).2 =
  lru (read_existing (_path self instr ad charge) w).2.
Proof.
  rewrite generate_patterns_unfold. cbv zeta.
  destruct (read_existing _ w) as [[existing_df|e] w0]; [|done].
  destruct (_mf_cache self !! default (-1) db_id) as [mol_formulas|]; [|done].
  destruct (filter _ mol_formulas) as [|x new]; [done|].
  destruct (for_each (x :: new) _ [] w0) as [res w1] eqn:Hloop.
  apply generate_loop in Hloop as (calls & -> & _).
  destruct res as [df|e]; [|done].
  by destruct (write_table _ _ _) as [r0 fs'].
Qed.

(** The cache stays as [functools.lru_cache] keeps it, with no directory
    twice and no more directories than [ISOTOPE_CACHE_SIZE] allows, through
    every query and every run of the generator, whatever their outcome. *)
Theorem cache_stays_ok self instr charge db_id adducts targets decoys k seed
    ad w :
  cache_ok (lru w) →
  cache_ok (lru (load_patterns self instr charge db_id adducts w).2) ∧
  cache_ok (lru (load_fdr_subsample self instr charge db_id targets decoys k
                   seed w).2) ∧
  cache_ok (lru (generate_patterns self instr ad charge db_id w).2).
Proof.
  intros Hok. split; [|split].
  - rewrite load_patterns_world. by apply load_cache_ok.
  - destruct (load_fdr_subsample_world self instr charge db_id targets decoys
                k seed w) as [->|[g ->]]; [done|].
    simpl. by apply load_cache_ok.
  - rewrite generate_patterns_lru.
    destruct (read_existing_lru (_path self instr ad charge) w) as [->| ->];
      [done|by apply load_cache_ok].
Qed.

(** The queries read only: neither changes the file system or calls the
    physics engine, and [load_patterns] leaves the random generator alone
    as well. *)
Theorem queries_read_only self instr charge db_id adducts targets decoys k
    seed w :
  let w1 := (load_patterns self instr charge db_id adducts w).2 in
  let w2 := (load_fdr_subsample self instr charge db_id targets decoys k
               seed w).2 in
  (fs w1 = fs w ∧ engine_log w1 = engine_log w ∧ np_random w1 = np_random w) ∧
  (fs w2 = fs w ∧ engine_log w2 = engine_log w).
Proof.
  intros w1 w2. unfold w1, w2. clear w1 w2.
  destruct (load_world (_dir_path self instr charge) w) as (Hfs & Hnp & Hlog).
  split.
  - by rewrite load_patterns_world.
  - destruct (load_fdr_subsample_world self instr charge db_id targets decoys
                k seed w) as [->|[g ->]]; done.
Qed.

(** ** The subsample, again *)

Lemma load_patterns_adducts self instr charge db_id adducts w out :
  (load_patterns self instr charge db_id adducts w).1 = Ok out →
  adducts ≠ [] → ∀ r, r ∈ out → adduct r ∈ adducts.
Proof.
  unfold load_patterns, bind. intros Hrun Hadducts r Hr.
  destruct (_load _ w) as [[df|e] w1]; [|done].
  destruct adducts as [|a adducts]; [done|].
  assert (Hfirst : ∀ r, r ∈ pd_merge adduct df (a :: adducts) →
                        adduct r ∈ a :: adducts).
  { intros r'. rewrite elem_of_pd_merge. tauto. }
  unfold _molecular_formulas, ret, raise in Hrun.
  destruct db_id as [[|id|id]|]; simpl in Hrun.
  - injection Hrun as <-. by apply Hfirst.
  - destruct (_mf_cache self !! _) as [mfs|]; [|done].
    injection Hrun as <-. apply elem_of_pd_merge in Hr as [Hr _].
    by apply Hfirst.
  - destruct (_mf_cache self !! _) as [mfs|]; [|done].
    injection Hrun as <-. apply elem_of_pd_merge in Hr as [Hr _].
    by apply Hfirst.
  - injection Hrun as <-. by apply Hfirst.
Qed.

Lemma load_fdr_subsample_cases self instr charge db_id targets decoys k
    seed w :
  (∃ e, (load_fdr_subsample self instr charge db_id targets decoys k seed
           w).1 = Raise e ∧
        (seed_if_given seed w).1 = Raise e) ∨
  (∃ e, (load_fdr_subsample self instr charge db_id targets decoys k seed
           w).1 = Raise e ∧
        (load_patterns self instr charge db_id (targets ++ decoys) w).1
          = Raise e) ∨
  (∃ df w1, (load_patterns self instr charge db_id (targets ++ decoys) w).1
              = Ok df ∧
            (load_fdr_subsample self instr charge db_id targets decoys k seed
               w).1 = (subsample df targets k w1).1).
Proof.
  unfold load_fdr_subsample.
  destruct (seed_if_given_spec seed w) as [[e Hseed]|[g Hseed]].
  { left. exists e. by rewrite (bind_raise _ _ _ _ _ Hseed), Hseed. }
  right. rewrite (bind_ok _ _ _ _ _ Hseed).
  unfold bind. rewrite load_patterns_np_random.
  destruct (load_patterns self instr charge db_id _ w) as [[df|e] w1];
    simpl.
  - right. by exists df, (set_np_random g w1).
  - left. by exists e.
Qed.

(** No more decoy adducts are among the rows than are listed. *)
Lemma decoy_adducts_bound self instr charge db_id targets decoys w df :
  (load_patterns self instr charge db_id (targets ++ decoys) w).1 = Ok df →
  target_rows targets df ≠ [] →
  (length (unique (adduct <$> decoy_rows targets df)) ≤ length decoys)%nat.
Proof.
  intros Hload Htargets.
  apply submseteq_length, NoDup_submseteq; [apply NoDup_unique|].
  intros a Ha. apply elem_of_unique, list_elem_of_fmap in Ha as (r & -> & Hr).
  apply list_elem_of_filter in Hr as [Hdecoy Hr].
  assert (Hadducts : targets ++ decoys ≠ []).
  { destruct targets as [|t targets]; [|done]. exfalso. apply Htargets.
    apply filter_none, Forall_forall. intros r' _ Hr'.
    by apply elem_of_nil in Hr'. }
  pose proof (load_patterns_adducts _ _ _ _ _ _ _ Hload Hadducts r Hr) as Hin.
  by apply elem_of_app in Hin as [?|?].
Qed.

Lemma few_decoys_raise self instr charge db_id targets decoys k seed w :
  (length decoys < k)%nat →
  ∃ e, (load_fdr_subsample self instr charge db_id targets decoys k seed
          w).1 = Raise e.
Proof.
  intros Hfew.
  destruct (load_fdr_subsample_cases self instr charge db_id targets decoys
              k seed w)
    as [(e & -> & _)|[(e & -> & _)|(df & w1 & Hload & ->)]];
    [by eexists|by eexists|].
  destruct (subsample_cases df targets k w1)
    as [[_ ->]|[(_ & _ & _ & ->)|(Htargets & _ & Hk & _)]];
    [by eexists|by eexists|].
  pose proof (decoy_adducts_bound _ _ _ _ _ _ _ _ Hload Htargets). lia.
Qed.

(** A subsample that asks for more decoys per target than decoy adducts
    are listed never returns a table: it raises, and when the seed is one
    numpy takes and the table it loads has rows of both classes, what it
    raises is the [AssertionError]. *)
Theorem load_fdr_subsample_few_decoys self instr charge db_id target_adducts
    decoy_adducts decoys_per_target random_seed w :
  (length decoy_adducts < decoys_per_target)%nat →
  ∃ e, (load_fdr_subsample self instr charge db_id target_adducts
          decoy_adducts decoys_per_target random_seed w).1 = Raise e ∧
       (seed_in_range random_seed →
        ∀ df, (load_patterns self instr charge db_id
                 (target_adducts ++ decoy_adducts) w).1 = Ok df →
              target_rows target_adducts df ≠ [] →
              decoy_rows target_adducts df ≠ [] →
              e = AssertionError).
Proof.
  intros Hfew.
  destruct (load_fdr_subsample_cases self instr charge db_id target_adducts
              decoy_adducts decoys_per_target random_seed w)
    as [(e & Hrun & Hseed)|[(e & Hrun & Hload)|(df & w1 & Hload & Hrun)]].
  - exists e. split; [done|]. intros Hrange.
    destruct (seed_if_given_in_range random_seed w Hrange) as [g Hg].
    by rewrite Hg in Hseed.
  - exists e. split; [done|]. intros _ df Hdf. congruence.
  - rewrite Hrun.
    destruct (subsample_cases df target_adducts decoys_per_target w1)
      as [[Hclass ->]|[(_ & _ & _ & ->)|(Htargets & _ & Hk & _)]].
    + exists ValueError. split; [done|]. intros _ df' Hdf' Ht Hd.
      rewrite Hload in Hdf'. injection Hdf' as <-. by destruct Hclass.
    + by exists AssertionError.
    + pose proof (decoy_adducts_bound _ _ _ _ _ _ _ _ Hload Htargets). lia.
Qed.

Lemma sublist_fmap_filter {A B} (f : A → B) (P : A → Prop)
    `{!∀ x, Decision (P x)} (l : list A) :
  f <$> filter P l `sublist_of` f <$> l.
Proof.
  induction l as [|x l IH]; [done|]. rewrite filter_cons.
  destruct (decide (P x)); simpl; by constructor.
Qed.

(** The rows of a subsample are rows of the table it loaded, none of them
    altered: all the rows of the target adducts in their order, and after
    them decoy rows, in their order too. *)
Theorem load_fdr_subsample_rows self instr charge db_id target_adducts
    decoy_adducts decoys_per_target random_seed w out w' :
  load_fdr_subsample self instr charge db_id target_adducts decoy_adducts
    decoys_per_target random_seed w = (Ok out, w') →
  ∃ df kept,
    (load_patterns self instr charge db_id
       (target_adducts ++ decoy_adducts) w).1 = Ok df ∧
    base <$> out = target_rows target_adducts df ++ kept ∧
    kept `sublist_of` decoy_rows target_adducts df.
Proof.
  intros Hrun.
  destruct (load_fdr_subsample_ok _ _ _ _ _ _ _ _ _ _ _ Hrun)
    as (df & g & Hload & Hsub).
  exists df.
  destruct (subsample_cases df target_adducts decoys_per_target
              (set_np_random g
                 (load_patterns self instr charge db_id
                    (target_adducts ++ decoy_adducts) w).2))
    as [[_ Hcase]|[(_ & _ & _ & Hcase)
                  |(_ & _ & _ & tdf & ddf & g' & Hcase & Htdf & Hddf & _)]];
    rewrite Hcase in Hsub; try done.
  injection Hsub as <- _.
  exists (base <$> filter (λ r, (0 < selection_count target_adducts r)%nat) ddf).
  split; [done|]. split; [by rewrite fmap_app, Htdf|].
  rewrite <- Hddf. apply sublist_fmap_filter.
Qed.

Lemma select_groups_none n groups : ∀ selection g,
  (select_groups n 0 groups selection g).1 = selection.
Proof.
  induction groups as [|i groups IH]; intros selection g; simpl; [done|].
  destruct (rand n g) as [draws g']. by rewrite IH.
Qed.

(** With no decoy per target every round of the loop writes a column of
    [False] into both tables. *)
Lemma subsample_loop_none n_rows n_mf n (targets : list string) :
  ∀ tdf ddf w,
  length ddf = n_rows →
  ∃ tdf' ddf' g',
    for_each targets (λ adduct dfs,
        bind (_select_decoys n_rows n_mf n 0) (λ selection,
        ret (set_column adduct (replicate (length dfs.1) false) dfs.1,
             set_column adduct selection dfs.2)))
      (tdf, ddf) w = (Ok (tdf', ddf'), set_np_random g' w) ∧
    base <$> tdf' = base <$> tdf ∧
    length ddf' = n_rows ∧
    ∀ t, t ∈ targets ∨ column t ddf = replicate n_rows (Some false) →
         column t ddf' = replicate n_rows (Some false).
Proof.
  induction targets as [|t0 targets IH]; intros tdf ddf w Hlen.
  - exists tdf, ddf, (np_random w). destruct w. simpl.
    unfold ret, set_np_random. simpl. repeat split; try done.
    intros t [Ht|Ht]; [by apply elem_of_nil in Ht|done].
  - rewrite for_each_cons. unfold bind at 1. unfold _select_decoys.
    pose proof (select_groups_none n (seq 0 n_mf) (replicate n_rows false)
                  (np_random w)) as Hsel.
    destruct (select_groups n 0 (seq 0 n_mf) (replicate n_rows false)
                (np_random w)) as [selection0 g0]. simpl in Hsel.
    subst selection0. unfold ret at 1. cbn [fst snd].
    destruct (set_column_spec t0 (replicate (length tdf) false) tdf)
      as (_ & Ht2 & _); [by rewrite length_replicate|].
    destruct (set_column_spec t0 (replicate n_rows false) ddf)
      as (Hd1 & _ & _ & Hd4 & Hd5); [by rewrite length_replicate|].
    destruct (IH (set_column t0 (replicate (length tdf) false) tdf)
                 (set_column t0 (replicate n_rows false) ddf)
                 (World (fs w) (lru w) g0 (engine_log w)))
      as (tdf' & ddf' & g' & Hrun & Hb1 & Hlen' & Hcols); [congruence|].
    exists tdf', ddf', g'. split; [exact Hrun|]. rewrite Hb1.
    split; [done|]. split; [done|]. intros t Ht.
    apply Hcols. destruct (decide (t = t0)) as [->|Hne].
    + right. by rewrite Hd4, fmap_replicate.
    + destruct Ht as [Ht|Ht].
      * left. by apply elem_of_cons in Ht as [?|?].
      * right. by rewrite Hd5.
Qed.

(** With no decoy per target a subsample keeps no decoy row: it is the
    rows of the target adducts and nothing else. *)
Theorem load_fdr_subsample_no_decoys self instr charge db_id target_adducts
    decoy_adducts random_seed w out w' :
  load_fdr_subsample self instr charge db_id target_adducts decoy_adducts
    0 random_seed w = (Ok out, w') →
  ∃ df,
    (load_patterns self instr charge db_id
       (target_adducts ++ decoy_adducts) w).1 = Ok df ∧
    base <$> out = target_rows target_adducts df.
Proof.
  intros Hrun.
  destruct (load_fdr_subsample_ok _ _ _ _ _ _ _ _ _ _ _ Hrun)
    as (df & g & Hload & Hsub).
  exists df. split; [done|]. revert Hsub.
  generalize (set_np_random g
                (load_patterns self instr charge db_id
                   (target_adducts ++ decoy_adducts) w).2) as w1.
  intros w1. unfold subsample, groupby_is_target.
  rewrite groupby_decoy_rows, groupby_target_rows.
  rewrite !filter_cons, filter_nil.
  destruct (decoy_rows target_adducts df) as [|d0 decoys] eqn:Hdecoys.
  { simpl. by repeat case_decide. }
  destruct (target_rows target_adducts df) as [|t0 tgts] eqn:Htargets.
  { simpl. by repeat case_decide. }
  rewrite !decide_True by done.
  set (mk := λ r, FdrRow r (bool_decide (adduct r ∈ target_adducts)) ∅).
  rewrite bool_decide_eq_true_2 by lia.
  destruct (subsample_loop_none (length (mk <$> d0 :: decoys))
              (length (mk <$> d0 :: decoys)
                 / length (unique (adduct ∘ base <$> (mk <$> d0 :: decoys))))
              (length (unique (adduct ∘ base <$> (mk <$> d0 :: decoys))))
              target_adducts (mk <$> t0 :: tgts) (mk <$> d0 :: decoys) w1)
    as (tdf & ddf & g' & Hloop & Hb1 & Hlen & Hcols); [done|].
  rewrite (bind_ok _ _ _ _ _ Hloop). unfold ret. intros [= <- _].
  rewrite filter_none.
  - rewrite app_nil_r, Hb1, <- list_fmap_compose. apply list_fmap_id.
  - apply Forall_forall. intros r Hr Hpos.
    apply selection_count_pos in Hpos as (t & Ht & Htrue).
    assert (Hfalse : selected r !! t = Some false).
    { apply (column_all_false t ddf r); [|done].
      rewrite Hlen. apply Hcols. by left. }
    congruence.
Qed.

(** ** The generator, again *)











(** ** Batches *)

Lemma length_bind_uniform {A B} (f : A → list B) (c : nat) (l : list A) :
  (∀ x, length (f x) = c) → length (l ≫= f) = (length l * c)%nat.
Proof.
  intros Hf. induction l as [|x l IH]; [done|].
  rewrite bind_cons, length_app, Hf, IH. simpl. lia.
Qed.

Lemma product_spec {A B C} (xs : list A) (ys : list B) (zs : list C) :
  length (product xs ys zs) = (length xs * length ys * length zs)%nat ∧
  (∀ x y z, (x, y, z) ∈ product xs ys zs ↔ x ∈ xs ∧ y ∈ ys ∧ z ∈ zs) ∧
  (NoDup xs → NoDup ys → NoDup zs → NoDup (product xs ys zs)).
Proof.
  unfold product. split; [|split].
  - rewrite (length_bind_uniform _ (length ys * length zs)); [lia|].
    intros x. rewrite (length_bind_uniform _ (length zs)); [lia|].
    intros y. rewrite (length_bind_uniform _ 1); [lia|done].
  - intros x y z. rewrite list_elem_of_bind. split.
    + intros (x' & Hin & Hx). apply list_elem_of_bind in Hin as (y' & Hin & Hy).
      apply list_elem_of_bind in Hin as (z' & Hin & Hz).
      apply list_elem_of_singleton in Hin as [= -> -> ->]. done.
    + intros (Hx & Hy & Hz). exists x. split; [|done].
      apply list_elem_of_bind. exists y. split; [|done].
      apply list_elem_of_bind. exists z. split; [|done].
      by apply list_elem_of_singleton.
  - intros Hxs Hys Hzs.
    assert (Hin : ∀ x (p : A * B * C),
              p ∈ (ys ≫= λ y, zs ≫= λ z, [(x, y, z)]) → p.1.1 = x).
    { intros x p (y & Hp & _)%list_elem_of_bind.
      apply list_elem_of_bind in Hp as (z & Hp & _).
      by apply list_elem_of_singleton in Hp as ->. }
    apply NoDup_bind; [|intros x _|done].
    { intros x1 x2 p _ _ H1 H2. apply Hin in H1, H2. congruence. }
    apply NoDup_bind; [|intros y _|done].
    { intros y1 y2 p _ _ (z1 & H1 & _)%list_elem_of_bind
                         (z2 & H2 & _)%list_elem_of_bind.
      apply list_elem_of_singleton in H1, H2. congruence. }
    apply NoDup_bind; [|intros z _; apply NoDup_singleton|done].
    intros z1 z2 p _ _ H1 H2.
    apply list_elem_of_singleton in H1, H2. congruence.
Qed.

(** A batch for which instrument settings and pairs of adduct and charge
    are handed in does not look at the file system: it submits one call of
    [generate_patterns] for every combination of a database, a setting and
    a pair, for all databases at once when no database is named, and no
    call twice unless an argument lists something twice. *)
Theorem batch_generate_submits self database_ids instrs pairs w :
  instrs ≠ [] → pairs ≠ [] →
  let dbs := match database_ids with
             | Some (db :: dbs) => db :: dbs
             | _ => [None]
             end in
  ∃ tasks,
    batch_generate self database_ids (Some instrs) (Some pairs) w
      = (Ok tasks, w) ∧
    length tasks = (length dbs * length instrs * length pairs)%nat ∧
    (∀ t, t ∈ tasks ↔
          task_db_id t ∈ dbs ∧ task_instr t ∈ instrs ∧
          (task_adduct t, task_charge t) ∈ pairs) ∧
    (NoDup dbs → NoDup instrs → NoDup pairs → NoDup tasks).
Proof.
  intros Hinstrs Hpairs dbs.
  destruct (product_spec dbs instrs pairs) as (Hlen & Hin & Hnodup).
  exists ((λ params : option Z * InstrumentSettings * (string * Z),
             Task params.1.2 params.2.1 params.2.2 params.1.1)
            <$> product dbs instrs pairs).
  split; [|split; [|split]].
  - unfold batch_generate, dbs.
    destruct instrs as [|i instrs]; [done|].
    destruct pairs as [|p pairs]; [done|].
    by destruct database_ids as [[|db dbs']|].
  - by rewrite length_fmap.
  - intros [i a c db]. rewrite list_elem_of_fmap. simpl. split.
    + intros ([[db' i'] [a' c']] & [= -> -> -> ->] & Hp). by apply Hin.
    + intros Hp. exists (db, i, (a, c)). split; [done|]. by apply Hin.
  - intros H1 H2 H3. apply NoDup_fmap_2_strong; [|by apply Hnodup].
    intros [[db1 i1] [a1 c1]] [[db2 i2] [a2 c2]] _ _ [= -> -> -> ->]. done.
Qed.

(** On the tree the constructor has just made in an empty file system a
    batch that leaves the instrument settings or the pairs of adduct and
    charge to be looked up raises a [KeyError] and submits nothing. *)
Theorem batch_generate_empty_tree (mol_formulas : gmap Z (gset string))
    (g : rng_state) :
  ∃ self w,
    __init__ mol_formulas ["data"] (World ∅ [] g []) = (Ok self, w) ∧
    ∀ database_ids instrs pairs,
      instrs = None ∨ instrs = Some [] ∨ pairs = None ∨ pairs = Some [] →
      batch_generate self database_ids instrs pairs w = (Raise KeyError, w).
Proof.
  unfold __init__, bind, on_fs, ret. simpl.
  destruct (foldl add_database (∅, ∅) (map_to_list mol_formulas))
    as [all_mfs mf_cache].
  eexists _, _. split; [reflexivity|].
  intros database_ids instrs pairs Hmissing.
  unfold batch_generate, bind.
  assert (Hdbs : ∃ dbs, ∀ w, or_else database_ids (ret [None]) w = (Ok dbs, w)).
  { destruct database_ids as [[|db dbs]|]; by eexists. }
  destruct Hdbs as [dbs Hdbs]. rewrite Hdbs.
  destruct Hmissing as [->|[->|[->| ->]]]; try reflexivity.
  - destruct instrs as [[|i instrs]|]; reflexivity.
  - destruct instrs as [[|i instrs]|]; reflexivity.
Qed.

Lemma count_product {A B C} `{EqDecision A} `{EqDecision B} `{EqDecision C}
    (xs : list A) (ys : list B) (zs : list C) (x : A) (y : B) (z : C) :
  length (filter (λ p, p = (x, y, z)) (product xs ys zs)) =
  (length (filter (λ x', x' = x) xs) * length (filter (λ y', y' = y) ys)
   * length (filter (λ z', z' = z) zs))%nat.
Proof.
  unfold product.
  assert (Hz : ∀ x0 y0,
    length (filter (λ p, p = (x, y, z)) (zs ≫= λ z0, [(x0, y0, z0)])) =
    if decide (x0 = x ∧ y0 = y)
    then length (filter (λ z', z' = z) zs) else 0%nat).
  { intros x0 y0. induction zs as [|z0 zs IH]; [by case_decide|].
    rewrite bind_cons, filter_app, length_app, IH, (filter_cons _ z0).
    rewrite filter_cons, filter_nil.
    destruct (decide (x0 = x ∧ y0 = y)) as [[-> ->]|Hne].
    - destruct (decide (z0 = z)) as [->|Hz].
      + by rewrite decide_True.
      + rewrite decide_False; [done|]. by intros [= ?].
    - rewrite decide_False; [done|]. intros [= ? ? ?]. by apply Hne. }
  assert (Hy : ∀ x0,
    length (filter (λ p, p = (x, y, z))
              (ys ≫= λ y0, zs ≫= λ z0, [(x0, y0, z0)])) =
    if decide (x0 = x)
    then (length (filter (λ y', y' = y) ys)
          * length (filter (λ z', z' = z) zs))%nat
    else 0%nat).
  { intros x0. induction ys as [|y0 ys IH]; [by case_decide|].
    rewrite bind_cons, filter_app, length_app, IH, Hz, (filter_cons _ y0).
    destruct (decide (x0 = x)) as [->|Hx].
    - destruct (decide (y0 = y)) as [->|Hy].
      + rewrite decide_True by done. simpl. lia.
      + rewrite decide_False by tauto. done.
    - rewrite decide_False by tauto. done. }
  induction xs as [|x0 xs IH]; [done|].
  rewrite bind_cons, filter_app, length_app, IH, Hy, (filter_cons _ x0).
  destruct (decide (x0 = x)) as [->|Hx]; simpl; lia.
Qed.

Lemma count_fmap_inj {A B} `{EqDecision A} `{EqDecision B} (f : A → B)
    `{!Inj (=) (=) f} (x : A) (l : list A) :
  length (filter (λ y, y = f x) (f <$> l)) = length (filter (λ x', x' = x) l).
Proof.
  induction l as [|x0 l IH]; [done|].
  rewrite fmap_cons, !filter_cons.
  destruct (decide (x0 = x)) as [->|Hne].
  - rewrite decide_True by done. simpl. by rewrite IH.
  - rewrite decide_False; [done|]. by intros ?%(inj f).
Qed.

(** The batch of [compute_all_patterns] is 1485 calls, all of them for all
    databases, and not all of them different: since [+Cl] is a decoy
    adduct too, the call for [+Cl] with the charge -1 is submitted twice
    for every instrument setting, and every other call once. *)
Theorem compute_all_patterns_submits pattern_storage w :
  ∃ tasks,
    compute_all_patterns pattern_storage w = (Ok tasks, w) ∧
    length tasks = 1485%nat ∧
    ∀ t, t ∈ tasks →
      task_db_id t = None ∧
      length (filter (λ t', t' = t) tasks) =
        if decide (task_adduct t = "+Cl" ∧ task_charge t = -1)
        then 2%nat else 1%nat.
Proof.
  set (mk := λ params : option Z * InstrumentSettings * (string * Z),
               Task params.1.2 params.2.1 params.2.2 params.1.1).
  assert (Hinj : Inj (=) (=) mk).
  { intros [[db1 i1] [a1 c1]] [[db2 i2] [a2 c2]] [= -> -> -> ->]. done. }
  set (settings :=
         (λ pts_per_mz, {| pts_per_mz := pts_per_mz |})
           <$> [2019; 2885; 4039; 5770; 7212; 8078; 14425; 21637; 28850]).
  set (pairs :=
         ((λ adduct, (adduct, 1)) <$> ["+H"; "+K"; "+Na"])
         ++ ((λ adduct, (adduct, -1)) <$> ["-H"; "+Cl"])
         ++ (adduct ← DECOY_ADDUCTS; [(adduct, 1); (adduct, -1)])).
  assert (Hsettings : Forall (λ i,
            length (filter (λ i', i' = i) settings) = 1%nat) settings)
    by by_computation.
  assert (Hpairs : Forall (λ p,
            length (filter (λ p', p' = p) pairs) =
              if decide (p.1 = "+Cl" ∧ p.2 = -1) then 2%nat else 1%nat)
            pairs)
    by by_computation.
  exists (mk <$> product [None] settings pairs).
  split; [reflexivity|]. split; [reflexivity|].
  intros t ([[db i] [a c]] & -> & Hin)%list_elem_of_fmap.
  apply product_spec in Hin as (Hdb & Hi & Hp).
  apply list_elem_of_singleton in Hdb as ->. split; [done|].
  rewrite (count_fmap_inj mk), count_product.
  eapply Forall_forall in Hsettings; [|exact Hi].
  eapply Forall_forall in Hpairs; [|exact Hp].
  rewrite Hsettings, Hpairs. simpl. by case_decide.
Qed.

(** ** The handlers *)

Lemma handled_raise {A} (m : py A) w e :
  (m w).1 = Raise e → (handled m w).1 = inr (StorageError e).
Proof. unfold handled. by destruct (m w) as [[a|e'] w']; intros [= ->]. Qed.

Lemma handled_fst {A} (m1 m2 : py A) w1 w2 :
  (m1 w1).1 = (m2 w2).1 → (handled m1 w1).1 = (handled m2 w2).1.
Proof.
  unfold handled. destruct (m1 w1) as [[a1|e1] w1'], (m2 w2) as [[a2|e2] w2'];
    by intros [= ->].
Qed.

(** The fields of the path parsed, then the body. *)
Lemma parsed_fields {A} (db_id charge pts_per_mz : string)
    (body : InstrumentSettings → Z → Z → py A) w :
  (bind (lift (int pts_per_mz)) (λ pts_per_mz,
   bind (lift (int charge)) (λ charge,
   bind (lift (int db_id)) (λ db_id,
   body {| pts_per_mz := pts_per_mz |} charge db_id)))) w =
  match py_int pts_per_mz, py_int charge, py_int db_id with
  | Some p, Some c, Some d => body {| pts_per_mz := p |} c d w
  | _, _, _ => (Raise ValueError, w)
  end.
Proof.
  unfold bind, lift, int.
  destruct (py_int pts_per_mz), (py_int charge), (py_int db_id); done.
Qed.

(** A request to [on_post] that lists fewer than 20 decoy adducts never gets
    a table: the handler asks for 20 decoys per target whatever the
    request says. *)
Theorem on_post_few_decoys storage targets (decoys : string) db_id charge
    pts_per_mz w :
  decoys ≠ "" →
  (length (split_on ","%char decoys) < 20)%nat →
  ∃ e, (on_post storage targets (Some decoys) db_id charge pts_per_mz w).1
       = inr e.
Proof.
  intros Hdecoys Hfew. unfold on_post.
  destruct targets as [targets|]; [|by eexists].
  destruct decoys as [|c decoys]; [done|].
  set (decoy_adducts := split_on ","%char (String c decoys)) in *.
  match goal with |- ∃ e, (handled ?m w).1 = inr e =>
    assert (Hraise : ∃ e, (m w).1 = Raise e)
  end.
  { rewrite (parsed_fields db_id charge pts_per_mz
               (λ instr charge db_id,
                  load_fdr_subsample storage instr charge (Some db_id)
                    (split_on ","%char targets) decoy_adducts 20 (Some 42))).
    destruct (py_int pts_per_mz) as [p|]; [|by eexists].
    destruct (py_int charge) as [ch|]; [|by eexists].
    destruct (py_int db_id) as [d|]; [|by eexists].
    by apply few_decoys_raise. }
  destruct Hraise as [e He]. exists (StorageError e). by apply handled_raise.
Qed.

Lemma seeded_twice self instr charge db_id targets decoys k (seed : Z) w :
  seed ≠ 0 →
  (load_fdr_subsample self instr charge db_id targets decoys k (Some seed)
     (load_fdr_subsample self instr charge db_id targets decoys k
        (Some seed) w).2).1 =
  (load_fdr_subsample self instr charge db_id targets decoys k (Some seed)
     w).1.
Proof.
  intros Hseed. destruct (decide (0 ≤ seed < 2 ^ 32)) as [Hrange|Hrange].
  2: { by rewrite !seeded_out_of_range. }
  rewrite !seeded_in_range by done.
  set (g0 := init_by_seed seed). set (adducts := targets ++ decoys).
  rewrite (seeded_body self instr charge db_id adducts targets k g0 w).
  pose proof (load_patterns_again self instr charge db_id adducts w)
    as Hagain.
  destruct (load_patterns self instr charge db_id adducts w)
    as [[df|e] w1]; simpl in *.
  - destruct (subsample_world df targets k (set_np_random g0 w1)) as [g1 ->].
    change (set_np_random g0 (set_np_random g1 (set_np_random g0 w1)))
      with (set_np_random g0 w1).
    rewrite seeded_body, Hagain. by apply subsample_generator.
  - change (set_np_random g0 (set_np_random g0 w1))
      with (set_np_random g0 w1).
    by rewrite seeded_body, Hagain.
Qed.

(** The answer of [on_post] to a request does not depend on the state of
    the random generator, and the same request made again right away gets
    the same answer: the handler always seeds with 42. *)
Theorem on_post_reproducible storage targets decoys db_id charge pts_per_mz
    w :
  (∀ g, (on_post storage targets decoys db_id charge pts_per_mz
           (set_np_random g w)).1 =
        (on_post storage targets decoys db_id charge pts_per_mz w).1) ∧
  (on_post storage targets decoys db_id charge pts_per_mz
     (on_post storage targets decoys db_id charge pts_per_mz w).2).1 =
  (on_post storage targets decoys db_id charge pts_per_mz w).1.
Proof.
  unfold on_post. destruct targets as [targets|]; [|done].
  set (decoy_adducts := match decoys with
                        | None | Some EmptyString => DECOY_ADDUCTS
                        | Some decoys => split_on ","%char decoys
                        end).
  set (body := λ instr charge db_id,
         load_fdr_subsample storage instr charge (Some db_id)
           (split_on ","%char targets) decoy_adducts 20 (Some 42)).
  split.
  - intros g. apply handled_fst.
    rewrite !(parsed_fields db_id charge pts_per_mz body).
    destruct (py_int pts_per_mz) as [p|]; [|done].
    destruct (py_int charge) as [ch|]; [|done].
    destruct (py_int db_id) as [d|]; [|done].
    unfold body. by rewrite !seeded_in_range.
  - match goal with |- (handled ?m (handled ?m w).2).1 = _ =>
      assert (Hw : (handled m w).2 = (m w).2)
        by (unfold handled; by destruct (m w) as [[a|e] w1]);
      rewrite Hw; apply handled_fst
    end.
    rewrite !(parsed_fields db_id charge pts_per_mz body).
    destruct (py_int pts_per_mz) as [p|]; [|done].
    destruct (py_int charge) as [ch|]; [|done].
    destruct (py_int db_id) as [d|]; [|done].
    unfold body. by apply seeded_twice.
Qed.

Lemma load_patterns_formulas self instr charge (db_id : Z) adducts w out :
  (load_patterns self instr charge (Some db_id) adducts w).1 = Ok out →
  db_id ≠ 0 →
  ∃ mfs, _mf_cache self !! db_id = Some mfs ∧ ∀ r, r ∈ out → mf r ∈ mfs.
Proof.
  unfold load_patterns, bind, _molecular_formulas, ret, raise.
  intros Hrun Hne. destruct (_load _ w) as [[df|e] w1]; [|done].
  destruct db_id as [|id|id]; [done| |]; simpl in Hrun;
    destruct (_mf_cache self !! _) as [mfs|]; try done;
    injection Hrun as <-; exists mfs; (split; [done|]);
    intros r Hr; by apply elem_of_pd_merge in Hr as [_ ?].
Qed.

(** An answer of [on_get]: the three fields of the path were numbers, the
    database is one the storage knows unless its id is 0, and every row of
    the answer has a formula of that database; the id 0 stands for all
    databases and restricts nothing. *)
Theorem on_get_answers storage db_id charge pts_per_mz w out w' :
  on_get storage db_id charge pts_per_mz w = (Ok out, w') →
  ∃ d c p,
    py_int db_id = Some d ∧ py_int charge = Some c ∧
    py_int pts_per_mz = Some p ∧
    (d = 0 →
     _load (_dir_path storage {| pts_per_mz := p |} c) w = (Ok out, w')) ∧
    (d ≠ 0 →
     ∃ mfs, _mf_cache storage !! d = Some mfs ∧ ∀ r, r ∈ out → mf r ∈ mfs).
Proof.
  unfold on_get.
  rewrite (parsed_fields db_id charge pts_per_mz
             (λ instr charge db_id,
                load_patterns storage instr charge (Some db_id) [])).
  destruct (py_int pts_per_mz) as [p|]; [|done].
  destruct (py_int charge) as [c|]; [|done].
  destruct (py_int db_id) as [d|]; [|done].
  intros Hrun. exists d, c, p. repeat (split; [done|]). split.
  - intros ->. unfold load_patterns, bind, ret in Hrun.
    by destruct (_load _ w) as [[df|e] w1]; simplify_eq/=.
  - intros Hne. eapply load_patterns_formulas; [|done]. by rewrite Hrun.
Qed.

(** ** The configuration index, again *)



















(** ** Joins with repeated keys *)

Lemma flat_map_ext_in {A B} (f g : A → list B) (l : list A) :
  (∀ x, x ∈ l → f x = g x) → flat_map f l = flat_map g l.
Proof.
  induction l as [|x l IH]; intros Hext; [done|]. simpl.
  rewrite Hext by left. rewrite IH; [done|]. intros y Hy. apply Hext. by right.
Qed.

Lemma grouped_by_key_all {K} `{EqDecision K} (key : pattern_row → K)
    (df : table) :
  flat_map (λ k, filter (λ r, key r = k) df) (unique (key <$> df)) ≡ₚ df.
Proof.
  rewrite (flat_map_ext_in _
             (λ k, if decide (k ∈ unique (key <$> df))
                   then filter (λ r, key r = k) df else [])).
  2: { intros k Hk. by rewrite decide_True. }
  rewrite grouped_by_key by apply NoDup_unique.
  rewrite filter_all; [done|]. apply Forall_forall. intros r Hr.
  assert (key r ∈ unique (key <$> df)); [|done].
  apply elem_of_unique, list_elem_of_fmap. by exists r.
Qed.

Lemma flat_map_flat_map {A B C} (f : A → list B) (g : B → list C)
    (l : list A) :
  flat_map g (flat_map f l) = flat_map (λ x, flat_map g (f x)) l.
Proof.
  induction l as [|x l IH]; [done|]. simpl. by rewrite flat_map_app, IH.
Qed.

(** [pd.merge] row by row: every row of the left table as often as the
    right table has its key. *)
Lemma pd_merge_rows {K} `{EqDecision K} (key : pattern_row → K)
    (df : table) (right : list K) :
  pd_merge key df right ≡ₚ
  flat_map (λ r, replicate (length (filter (λ k', k' = key r) right)) r) df.
Proof.
  unfold pd_merge.
  set (G := λ r : pattern_row,
         replicate (length (filter (λ k', k' = key r) right)) r).
  assert (Hinner : ∀ k,
    flat_map (λ r, replicate (length (filter (λ k', k' = k) right)) r)
             (filter (λ r, key r = k) df)
    = flat_map G (filter (λ r, key r = k) df)).
  { intros k. induction df as [|r l IH]; [done|]. rewrite filter_cons.
    destruct (decide (key r = k)) as [<-|?]; [|done]. simpl. by rewrite IH. }
  rewrite (flat_map_ext _ _ Hinner).
  rewrite <- (flat_map_flat_map (λ k, filter (λ r, key r = k) df) G).
  apply Permutation_flat_map, grouped_by_key_all.
Qed.

Lemma pd_merge_app_r {K} `{EqDecision K} (key : pattern_row → K)
    (df : table) (right1 right2 : list K) :
  pd_merge key df (right1 ++ right2) ≡ₚ
  pd_merge key df right1 ++ pd_merge key df right2.
Proof.
  rewrite !pd_merge_rows. induction df as [|r df IH]; [done|].
  simpl. rewrite IH, filter_app, length_app, replicate_add.
  rewrite <- !app_assoc. apply Permutation_app_head.
  rewrite !app_assoc. apply Permutation_app_tail, Permutation_app_comm.
Qed.

Lemma pd_merge_perm_l {K} `{EqDecision K} (key : pattern_row → K)
    (df1 df2 : table) (right : list K) :
  df1 ≡ₚ df2 → pd_merge key df1 right ≡ₚ pd_merge key df2 right.
Proof. intros Hperm. rewrite !pd_merge_rows. by rewrite Hperm. Qed.

Lemma pd_merge_app_l {K} `{EqDecision K} (key : pattern_row → K)
    (df1 df2 : table) (right : list K) :
  pd_merge key (df1 ++ df2) right ≡ₚ
  pd_merge key df1 right ++ pd_merge key df2 right.
Proof. rewrite !pd_merge_rows. by rewrite flat_map_app. Qed.

(** A query for two lists of adducts at once returns the rows of the
    query for the one list and the rows of the query for the other, so the
    rows of an adduct that is in both lists come twice. *)
Theorem load_patterns_two_lists self instr charge db_id adducts1 adducts2
    w out w' :
  load_patterns self instr charge db_id (adducts1 ++ adducts2) w
    = (Ok out, w') →
  adducts1 ≠ [] → adducts2 ≠ [] →
  ∃ out1 out2,
    load_patterns self instr charge db_id adducts1 w = (Ok out1, w') ∧
    load_patterns self instr charge db_id adducts2 w = (Ok out2, w') ∧
    out ≡ₚ out1 ++ out2.
Proof.
  unfold load_patterns, bind. intros Hrun H1 H2.
  destruct (_load _ w) as [[df|e] w1]; [|done].
  destruct adducts1 as [|a1 adducts1]; [done|].
  destruct adducts2 as [|a2 adducts2]; [done|].
  change ((a1 :: adducts1) ++ a2 :: adducts2)
    with (a1 :: (adducts1 ++ a2 :: adducts2)) in Hrun.
  cbv iota in Hrun.
  change (a1 :: (adducts1 ++ a2 :: adducts2))
    with ((a1 :: adducts1) ++ a2 :: adducts2) in Hrun.
  pose proof (pd_merge_app_r adduct df (a1 :: adducts1) (a2 :: adducts2))
    as Happ.
  unfold _molecular_formulas, ret, raise in *.
  assert (Hplain : (Ok (pd_merge adduct df ((a1 :: adducts1) ++ a2 :: adducts2)),
                    w1) = (Ok out, w') →
    ∃ out1 out2,
      (Ok (pd_merge adduct df (a1 :: adducts1)), w1) = (Ok out1, w') ∧
      (Ok (pd_merge adduct df (a2 :: adducts2)), w1) = (Ok out2, w') ∧
      out ≡ₚ out1 ++ out2).
  { intros [= <- <-]. by eexists _, _. }
  destruct db_id as [[|id|id]|]; simpl in *; try by apply Hplain.
  - destruct (_mf_cache self !! Z.pos id) as [mfs|]; [|done].
    injection Hrun as <- <-. eexists _, _. split; [done|]. split; [done|].
    by rewrite <- pd_merge_app_l, (pd_merge_perm_l _ _ _ _ Happ).
  - destruct (_mf_cache self !! Z.neg id) as [mfs|]; [|done].
    injection Hrun as <- <-. eexists _, _. split; [done|]. split; [done|].
    by rewrite <- pd_merge_app_l, (pd_merge_perm_l _ _ _ _ Happ).
Qed.

(** ** Entries the index does not expect *)

(** The index takes every entry of the directory of the storage for the
    directory of an instrument setting: when the entry it comes to first
    has no underscore in its name, both of its queries raise an
    [IndexError]. *)
Theorem index_rejects_other_entries self w d ds :
  iterdir (fs w) (_dir self) = Ok (d :: ds) →
  split_on "_"%char (name d) = [name d] →
  instrument_settings self w = (Raise IndexError, w) ∧
  adduct_charge_pairs self w = (Raise IndexError, w).
Proof.
  intros Hiter Hname.
  assert (Hconf : _configurations self w = (Raise IndexError, w)).
  { unfold _configurations, bind, get_fs, lift, ret. cbv beta iota.
    rewrite Hiter. cbv beta iota. rewrite for_each_cons. unfold bind, lift.
    by rewrite Hname. }
  split.
  - unfold instrument_settings, bind. by rewrite Hconf.
  - unfold adduct_charge_pairs, bind. by rewrite Hconf.
Qed.


(** ** Runs that return *)

Lemma read_tables_files fs0 paths tables :
  Forall2 (λ p t, fs0 !! p = Some (NFile t)) paths tables →
  read_tables fs0 paths = Ok tables.
Proof.
  induction 1 as [|p t paths tables Hp _ IH]; [done|].
  simpl. unfold read_table. by rewrite Hp, IH.
Qed.

(** The table of a directory that is not in the cache is the tables of
    its files, one after the other in the order the directory lists them;
    the load returns when every entry is a file and there is at least one,
    and puts the table into the cache, in front. *)
Theorem load_reads_directory (directory : path) w paths tables :
  cache_find directory (lru w) = None →
  iterdir (fs w) directory = Ok paths →
  Forall2 (λ p t, fs w !! p = Some (NFile t)) paths tables →
  paths ≠ [] →
  _load directory w =
    (Ok (concat tables),
     set_lru (cache_bound ((directory, concat tables) :: lru w)) w).
Proof.
  intros Hmiss Hiter Hfiles Hne.
  assert (Hdir : is_dir (fs w) directory = true).
  { unfold iterdir in Hiter. by destruct (is_dir (fs w) directory). }
  unfold _load, bind, get_fs, _load_dir, read_dir. cbv beta iota.
  rewrite Hdir, Hmiss, Hiter, (read_tables_files _ _ _ Hfiles).
  unfold pd_concat. destruct Hfiles; done.
Qed.



End Further.

(** ** The further properties on the toy run *)

Section ToyFurther.
#[local] Existing Instances toy_engine toy_rng toy_config.

(** The formulas of database 1 of the toy storage. *)
Lemma molecular_formulas_of_database_example :
  ∃ df, _molecular_formulas toy_self (Some 1) toy_world_full
          = (Ok df, toy_world_full) ∧
        NoDup df ∧ list_to_set df = ({[ "A"; "B" ]} : gset string).
Proof.
  assert (Hinit : __init__ toy_databases ["data"] toy_world
                  = (Ok toy_self, toy_world_init)).
  { apply (run_eta (__init__ toy_databases ["data"] toy_world)
             {| _dir := []; _mf_cache := ∅ |}).
    vm_compute. reflexivity. }
  assert (Hne : (1 : Z) ≠ -1) by lia.
  exact (molecular_formulas_of_database toy_databases ["data"] toy_world
           toy_self toy_world_init 1 toy_world_full Hinit Hne).
Defined.

(** The toy storage made in the empty file system. *)
Lemma init_makes_directory_example :
  lru toy_world_init = lru toy_world ∧
  np_random toy_world_init = np_random toy_world ∧
  engine_log toy_world_init = engine_log toy_world ∧
  (∀ q v, fs toy_world !! q = Some v → fs toy_world_init !! q = Some v) ∧
  (∀ q, fs toy_world !! q = None →
     fs toy_world_init !! q = None ∨
     (fs toy_world_init !! q = Some NDir ∧ q `prefix_of` ["data"])) ∧
  _dir toy_self = ["data"] ∧
  ∀ q, q ≠ [] → q `prefix_of` ["data"] → is_dir (fs toy_world_init) q = true.
Proof.
  assert (Hinit : __init__ toy_databases ["data"] toy_world
                  = (Ok toy_self, toy_world_init)).
  { apply (run_eta (__init__ toy_databases ["data"] toy_world)
             {| _dir := []; _mf_cache := ∅ |}).
    vm_compute. reflexivity. }
  exact (init_makes_directory toy_databases ["data"] toy_world (Ok toy_self)
           toy_world_init Hinit).
Defined.

(** What the toy storage returns for database 1 and the adduct [+H]. *)
Lemma load_patterns_selects_example :
  ∃ out w1,
    load_patterns toy_self toy_instrument 1 (Some 1) ["+H"] toy_world_full
      = (Ok out, w1) ∧
    (∀ r, r ∈ out → adduct r = "+H" ∧ mf r ∈ ["A"; "B"]) ∧
    length out = 2%nat.
Proof.
  assert (Hload : _load (_dir_path toy_self toy_instrument 1) toy_world_full
                  = (Ok toy_directory, toy_loaded.2)).
  { apply (run_eta toy_loaded []). vm_compute. reflexivity. }
  pose proof (load_patterns_selects toy_self toy_instrument 1 ["+H"]
                toy_world_full toy_directory toy_loaded.2 Hload) as Hsel.
  destruct Hsel as [_ Hdb].
  destruct (Hdb 1 (default [] (_mf_cache toy_self !! 1)))
    as (out & Hrun & Hin & Hperm); [lia|vm_compute; reflexivity|].
  exists out, toy_loaded.2.
  split; [exact Hrun|]. split.
  - intros r Hr. apply Hin in Hr as (_ & [[=]|Hadduct] & Hmf).
    split.
    + by apply list_elem_of_singleton in Hadduct.
    + revert Hmf. vm_compute. tauto.
  - rewrite Hperm; [vm_compute; reflexivity|by_computation|by_computation].
Defined.

(** The partition directory of the toy run away, and empty. *)
Lemma load_patterns_no_files_example :
  load_patterns toy_self toy_instrument 1 (Some 1) [] toy_world_init
    = (Raise OSError, toy_world_init) ∧
  load_patterns toy_self toy_instrument 1 (Some 1) [] toy_run_unknown.2
    = (Raise ValueError, toy_run_unknown.2).
Proof.
  split.
  - apply (load_patterns_no_files toy_self toy_instrument 1 (Some 1) []
             toy_world_init).
    vm_compute. reflexivity.
  - apply (load_patterns_no_files toy_self toy_instrument 1 (Some 1) []
             toy_run_unknown.2); vm_compute; reflexivity.
Defined.

(** The cache of the toy run after a query or a run of the generator. *)
Lemma cache_stays_ok_example :
  cache_ok (lru (load_patterns toy_self toy_instrument 1 (Some 1) []
                   toy_world_cached).2) ∧
  cache_ok (lru (load_fdr_subsample toy_self toy_instrument 1 (Some 1)
                   toy_targets toy_decoys 2 (Some 42) toy_world_cached).2) ∧
  cache_ok (lru (generate_patterns toy_self toy_instrument "+Na" 1 (Some 1)
                   toy_world_cached).2).
Proof.
  assert (Hok : cache_ok (lru toy_world_cached)).
  { split; [by_computation|]. vm_compute. lia. }
  exact (cache_stays_ok toy_self toy_instrument 1 (Some 1) [] toy_targets
           toy_decoys 2 (Some 42) "+Na" toy_world_cached Hok).
Defined.

(** Four decoys per target out of three decoy adducts. *)
Lemma load_fdr_subsample_few_decoys_example :
  (load_fdr_subsample toy_self toy_instrument 1 (Some 1) toy_targets
     toy_decoys 4 (Some 42) toy_world_full).1 = Raise AssertionError.
Proof.
  assert (Hfew : (length toy_decoys < 4)%nat) by (vm_compute; lia).
  destruct (load_fdr_subsample_few_decoys toy_self toy_instrument 1 (Some 1)
              toy_targets toy_decoys 4 (Some 42) toy_world_full Hfew)
    as (e & Hrun & He).
  assert (Hseed : seed_in_range (Some 42)) by (unfold seed_in_range; lia).
  assert (Hload : (load_patterns toy_self toy_instrument 1 (Some 1)
                     (toy_targets ++ toy_decoys) toy_world_full).1
                  = Ok toy_table).
  { apply (f_equal fst (run_eta toy_query [] ltac:(vm_compute; reflexivity))). }
  assert (Htargets : target_rows toy_targets toy_table ≠ [])
    by (vm_compute; discriminate).
  assert (Hdecoys : decoy_rows toy_targets toy_table ≠ [])
    by (vm_compute; discriminate).
  rewrite Hrun. f_equal. exact (He Hseed toy_table Hload Htargets Hdecoys).
Defined.

(** The rows of the subsample under the seed 42. *)
Lemma load_fdr_subsample_rows_example :
  ∃ df kept,
    (load_patterns toy_self toy_instrument 1 (Some 1)
       (toy_targets ++ toy_decoys) toy_world_full).1 = Ok df ∧
    base <$> toy_out = target_rows toy_targets df ++ kept ∧
    kept `sublist_of` decoy_rows toy_targets df.
Proof.
  apply (load_fdr_subsample_rows toy_self toy_instrument 1 (Some 1)
           toy_targets toy_decoys 2 (Some 42) toy_world_full
           toy_out toy_call.2).
  apply (run_eta toy_call []). vm_compute. reflexivity.
Defined.

(** The subsample without decoys is the two rows of [+H]. *)
Lemma load_fdr_subsample_no_decoys_example :
  ∃ df,
    (load_patterns toy_self toy_instrument 1 (Some 1)
       (toy_targets ++ toy_decoys) toy_world_full).1 = Ok df ∧
    base <$> toy_out_no_decoys = target_rows toy_targets df.
Proof.
  apply (load_fdr_subsample_no_decoys toy_self toy_instrument 1 (Some 1)
           toy_targets toy_decoys (Some 42) toy_world_full
           toy_out_no_decoys toy_call_no_decoys.2).
  apply (run_eta toy_call_no_decoys []). vm_compute. reflexivity.
Defined.






(** A batch of one setting and two pairs, for all databases. *)
Lemma batch_generate_submits_example :
  ∃ tasks,
    batch_generate toy_self None (Some [toy_instrument])
      (Some [("+H", 1); ("+Na", 1)]) toy_world_init
      = (Ok tasks, toy_world_init) ∧
    length tasks = 2%nat ∧
    (∀ t, t ∈ tasks ↔
          task_db_id t ∈ [None] ∧ task_instr t ∈ [toy_instrument] ∧
          (task_adduct t, task_charge t) ∈ [("+H", 1); ("+Na", 1)]) ∧
    (NoDup [@None Z] → NoDup [toy_instrument] →
     NoDup [("+H", 1); ("+Na", 1)] → NoDup tasks).
Proof.
  assert (Hinstrs : [toy_instrument] ≠ []) by done.
  assert (Hpairs : [("+H", 1); ("+Na", 1)] ≠ []) by done.
  exact (batch_generate_submits toy_self None [toy_instrument]
           [("+H", 1); ("+Na", 1)] toy_world_init Hinstrs Hpairs).
Defined.

(** A request that lists two decoy adducts. *)
Lemma on_post_few_decoys_example :
  ∃ e, (on_post toy_self (Some "+H") (Some "+He,+Li") "1" "1" "2019"
          toy_world_full).1 = inr e.
Proof.
  assert (Hdecoys : "+He,+Li" ≠ "") by done.
  assert (Hfew : (length (split_on ","%char "+He,+Li") < 20)%nat)
    by (vm_compute; lia).
  exact (on_post_few_decoys toy_self (Some "+H") "+He,+Li" "1" "1" "2019"
           toy_world_full Hdecoys Hfew).
Defined.

(** The answer for database 1 of the toy run. *)
Lemma on_get_answers_example :
  ∃ d c p,
    py_int "1" = Some d ∧ py_int "1" = Some c ∧ py_int "2019" = Some p ∧
    (d = 0 →
     _load (_dir_path toy_self {| pts_per_mz := p |} c) toy_world_full
       = (Ok toy_get_out, toy_get.2)) ∧
    (d ≠ 0 →
     ∃ mfs, _mf_cache toy_self !! d = Some mfs ∧
            ∀ r, r ∈ toy_get_out → mf r ∈ mfs).
Proof.
  assert (Hrun : on_get toy_self "1" "1" "2019" toy_world_full
                 = (Ok toy_get_out, toy_get.2)).
  { apply (run_eta toy_get []). vm_compute. reflexivity. }
  exact (on_get_answers toy_self "1" "1" "2019" toy_world_full toy_get_out
           toy_get.2 Hrun).
Defined.



(** The query for the target and the decoys of the toy run is the query
    for [+H] and the query for the three decoys. *)
Lemma load_patterns_two_lists_example :
  ∃ out1 out2,
    load_patterns toy_self toy_instrument 1 (Some 1) toy_targets
      toy_world_full = (Ok out1, toy_query.2) ∧
    load_patterns toy_self toy_instrument 1 (Some 1) toy_decoys
      toy_world_full = (Ok out2, toy_query.2) ∧
    toy_table ≡ₚ out1 ++ out2.
Proof.
  assert (Hrun : load_patterns toy_self toy_instrument 1 (Some 1)
                   (toy_targets ++ toy_decoys) toy_world_full
                 = (Ok toy_table, toy_query.2)).
  { apply (run_eta toy_query []). vm_compute. reflexivity. }
  assert (H1 : toy_targets ≠ []) by done.
  assert (H2 : toy_decoys ≠ []) by done.
  exact (load_patterns_two_lists toy_self toy_instrument 1 (Some 1)
           toy_targets toy_decoys toy_world_full toy_table toy_query.2
           Hrun H1 H2).
Defined.

(** A [README] in the directory of the storage. *)
Lemma index_rejects_other_entries_example :
  instrument_settings toy_self toy_world_readme
    = (Raise IndexError, toy_world_readme) ∧
  adduct_charge_pairs toy_self toy_world_readme
    = (Raise IndexError, toy_world_readme).
Proof.
  assert (Hiter : iterdir (fs toy_world_readme) (_dir toy_self)
                  = Ok [["data"; "README"]]) by (vm_compute; reflexivity).
  assert (Hname : split_on "_"%char (name ["data"; "README"])
                  = [name ["data"; "README"]]) by (vm_compute; reflexivity).
  exact (index_rejects_other_entries toy_self toy_world_readme
           ["data"; "README"] [] Hiter Hname).
Defined.


(** The partition directory of the toy run, with its first file. *)
Lemma load_reads_directory_example :
  _load (_dir_path toy_self toy_instrument 1) toy_world_first =
    (Ok (concat [toy_first_rows]),
     set_lru (cache_bound ((_dir_path toy_self toy_instrument 1,
                            concat [toy_first_rows])
                           :: lru toy_world_first)) toy_world_first).
Proof.
  assert (Hmiss : cache_find (_dir_path toy_self toy_instrument 1)
                    (lru toy_world_first) = None)
    by (vm_compute; reflexivity).
  assert (Hiter : iterdir (fs toy_world_first)
                    (_dir_path toy_self toy_instrument 1)
                  = Ok [_path toy_self toy_instrument "+H" 1])
    by (vm_compute; reflexivity).
  assert (Hfiles : Forall2 (λ p t, fs toy_world_first !! p = Some (NFile t))
                     [_path toy_self toy_instrument "+H" 1]
                     [toy_first_rows]).
  { constructor; [|constructor]. vm_compute. reflexivity. }
  assert (Hne : [_path toy_self toy_instrument "+H" 1] ≠ []) by done.
  exact (load_reads_directory (_dir_path toy_self toy_instrument 1)
           toy_world_first [_path toy_self toy_instrument "+H" 1]
           [toy_first_rows] Hmiss Hiter Hfiles Hne).
Defined.


End ToyFurther.
